(** * Wordle-ES: a shallow embedding of [wordle.py] and its specification

    The Python program is a terminal Wordle for Spanish words.  This file
    embeds its functions ([quitar_acentos], [obtener_palabras_de_internet],
    [validar_intento], [evaluar_intento], [jugar_wordle_es]) and proves the
    properties its specification states about them.

    Conventions of the embedding:
    - a Python [str] is the list of its Unicode code points ([list N]);
    - a Python exception is a value of [exn], and code that may raise lives
      in the error monad [py];
    - Python lists are lists, indexed with stdpp's [!!] and updated with
      [<[i:=x]>]; where Python raises [IndexError] the model does too;
    - the [dict] of the evaluator is a [gmap] from code points to [Z];
    - the standard output is the list of the messages printed so far. *)

From Stdlib Require Import String Ascii.
From stdpp Require Import gmap list.

Set Default Proof Using "Type".
Set Warnings "-clear-no-such-hyp".

(** ** Strings and exceptions *)

Abbreviation pystr := (list N) (only parsing).

(** [cps] reads an ASCII literal as a Python string. *)
Definition cps (s : string) : pystr := N_of_ascii <$> list_ascii_of_string s.

Inductive exn : Type :=
  | IndexError
  | KeyError
  | TypeError
  | AttributeError
  | EOFError
  | KeyboardInterrupt
  | SystemExit (code : Z).

Inductive py (A : Type) : Type :=
  | Ok (a : A)
  | Raise (e : exn).
Arguments Ok {A} a.
Arguments Raise {A} e.

#[global] Instance py_ret : MRet py := fun A a => Ok a.
#[global] Instance py_bind : MBind py := fun A B f m =>
  match m with
  | Ok a => f a
  | Raise e => Raise e
  end.

(** [l[i]] for a non-negative index. *)
Definition getitem {A} (l : list A) (i : nat) : py A :=
  match l !! i with
  | Some x => Ok x
  | None => Raise IndexError
  end.

(** [l[i] = x] for a non-negative index. *)
Definition setitem {A} (l : list A) (i : nat) (x : A) : py (list A) :=
  if decide (i < length l) then Ok (<[i:=x]> l) else Raise IndexError.

(** [for x in l: body], threading the variables the body assigns. *)
Fixpoint for_in {A S} (l : list A) (body : A → S → py S) (s : S) : py S :=
  match l with
  | [] => Ok s
  | x :: l' => s' ← body x s; for_in l' body s'
  end.

(** [for i in range(n): body]. *)
Definition for_range {S} (n : nat) (body : nat → S → py S) (s : S) : py S :=
  for_in (seq 0 n) body s.

(** ** The evaluator *)

(** The ANSI background codes the program uses as feedback marks:
    ESC [ 4 2 m, ESC [ 4 3 m, ESC [ 4 1 m and ESC [ 0 m. *)
Definition VERDE : pystr := [27; 91; 52; 50; 109]%N.
Definition AMARILLO : pystr := [27; 91; 52; 51; 109]%N.
Definition ROJO : pystr := [27; 91; 52; 49; 109]%N.
Definition RESET : pystr := [27; 91; 48; 109]%N.

(** One cell of an evaluation: the pair [(letra, color)]. *)
Abbreviation celda := (pystr * pystr)%type (only parsing).

(** Body of the first loop (lines 108-111): exact matches become green. *)
Definition pasada_verde (intento secreto : pystr) (i : nat)
    (st : list celda * list bool) : py (list celda * list bool) :=
  let '(resultado, usado_en_secreto) := st in
  gi ← getitem intento i;
  si ← getitem secreto i;
  if decide (gi = si) then
    resultado ← setitem resultado i ([gi], VERDE);
    usado_en_secreto ← setitem usado_en_secreto i true;
    Ok (resultado, usado_en_secreto)
  else Ok (resultado, usado_en_secreto).

(** Body of the second loop (lines 115-118): count the letters of the
    secret that are not green. *)
Definition contar_resto (secreto : pystr) (usado_en_secreto : list bool)
    (i : nat) (conteo_resto : gmap N Z) : py (gmap N Z) :=
  usado ← getitem usado_en_secreto i;
  if negb usado then
    letra ← getitem secreto i;
    Ok (<[letra := (default 0 (conteo_resto !! letra) + 1)%Z]> conteo_resto)
  else Ok conteo_resto.

(** Body of the third loop (lines 121-128): the cells still unmarked
    become yellow while the letter has copies left, red otherwise. *)
Definition pasada_resto (intento : pystr) (i : nat)
    (st : list celda * gmap N Z) : py (list celda * gmap N Z) :=
  let '(resultado, conteo_resto) := st in
  r ← getitem resultado i;
  if decide (r.2 = []) then
    letra ← getitem intento i;
    if decide (default 0 (conteo_resto !! letra) > 0)%Z then
      resultado ← setitem resultado i ([letra], AMARILLO);
      match conteo_resto !! letra with
      | Some v => Ok (resultado, <[letra := (v - 1)%Z]> conteo_resto)
      | None => Raise KeyError
      end
    else
      resultado ← setitem resultado i ([letra], ROJO);
      Ok (resultado, conteo_resto)
  else Ok (resultado, conteo_resto).

Definition evaluar_intento (intento secreto : pystr) : py (list celda) :=
  let n := length secreto in
  let resultado : list celda := replicate n ([], []) in
  let usado_en_secreto := replicate n false in
  '(resultado, usado_en_secreto) ←
    for_range n (pasada_verde intento secreto) (resultado, usado_en_secreto);
  conteo_resto ← for_range n (contar_resto secreto usado_en_secreto) ∅;
  '(resultado, _) ← for_range n (pasada_resto intento) (resultado, conteo_resto);
  Ok resultado.

(** ** The Python library the program calls

    [unicodedata], the [str] methods and [int] belong to the Python
    distribution, not to the program: the embedding takes them as an
    interface.  [char_isalpha] and [char_isspace] are the character
    classes behind [str.isalpha] and [str.strip]; [py_int] is [int] on a
    string, [None] standing for its [ValueError]. *)
Class PyLib : Type := {
  unicodedata_normalize_NFKD : pystr → pystr;
  unicodedata_combining : N → Z;
  str_lower : pystr → pystr;
  str_upper : pystr → pystr;
  char_isalpha : N → bool;
  char_isspace : N → bool;
  py_int : pystr → option Z;
}.

Fixpoint drop_while {A} (p : A → bool) (l : list A) : list A :=
  match l with
  | [] => []
  | x :: l' => if p x then drop_while p l' else l
  end.

Section programa.
Context `{PyLib}.

(** [s.isalpha()]: at least one character, all of them alphabetic. *)
Definition str_isalpha (s : pystr) : bool :=
  match s with
  | [] => false
  | _ => forallb char_isalpha s
  end.

(** [s.strip()]: white space removed at both ends. *)
Definition str_strip (s : pystr) : pystr :=
  reverse (drop_while char_isspace (reverse (drop_while char_isspace s))).

(** ** The normalizer (lines 37-44) *)
Definition quitar_acentos (palabra : pystr) : pystr :=
  let nfkd := unicodedata_normalize_NFKD palabra in
  let sin_diacriticos :=
    filter (λ c, unicodedata_combining c = 0%Z) nfkd in
  str_lower sin_diacriticos.

(** ** Validation of a guess (lines 85-89) *)
Definition validar_intento (intento : pystr) (longitud : Z) : bool :=
  bool_decide (Z.of_nat (length intento) = longitud) && str_isalpha intento.

End programa.

(** ** The world around the program

    The keyboard is the list of what the successive [input] calls meet: a
    line, or the interrupt of the user; the end of the list is the end of
    the input.  The network and the JSON decoder are called once, and the
    world holds what comes of it: the exception of [urlopen], [read] or
    [decode], the [JSONDecodeError] of [json.loads], or the value
    [json.loads] returns.  [azar] is the random draw. *)
#[warnings="-register-all"] Inductive json : Type :=
  | JNull
  | JBool (b : bool)
  | JNum (literal : pystr)
  | JStr (s : pystr)
  | JArr (elems : list json)
  | JObj (campos : list (pystr * json)).

Inductive respuesta : Type :=
  | FalloTransporte (e : pystr)
  | NoEsJSON
  | Datos (datos : json).

Inductive entrada : Type :=
  | Linea (s : pystr)
  | CtrlC.

(** What the program writes on the terminal, one constructor per
    [print], prompt or screen command of the source. *)
Inductive mensaje : Type :=
  | Limpiar
  | Bienvenida
  | PideLongitud
  | PideIntentos
  | FueraDeRango (min_val max_val : Z)
  | EnteroInvalido
  | Obteniendo (longitud : Z)
  | ErrorConexion (e : pystr)
  | ErrorJSON
  | SinPalabras (longitud : Z)
  | Comienza (max_intentos longitud : Z)
  | PideIntento (numero max_intentos : Z)
  | IntentoInvalido (longitud : Z)
  | Intentos (intentos_hechos max_intentos : Z)
  | LineaTablero (linea : pystr)
  | LineaEnBlanco
  | Felicidades
  | SigueIntentando
  | SeAcabaron
  | SecretoEra (palabra : pystr)
  | Gracias
  | Interrumpido.

Record mundo : Type := Mundo {
  teclado : list entrada;
  red : respuesta;
  azar : nat;
  pantalla : list mensaje;
}.

(** Programs that read the world, print and may raise. *)
Definition prog (A : Type) : Type := mundo → py A * mundo.

#[global] Instance prog_ret : MRet prog := fun A a w => (Ok a, w).
#[global] Instance prog_bind : MBind prog := fun A B f m w =>
  match m w with
  | (Ok a, w') => f a w'
  | (Raise e, w') => (Raise e, w')
  end.

Definition raise {A} (e : exn) : prog A := fun w => (Raise e, w).

Definition lift {A} (r : py A) : prog A := fun w => (r, w).

Definition print (m : mensaje) : prog unit := fun w =>
  (Ok tt, Mundo (teclado w) (red w) (azar w) (pantalla w ++ [m])).

(** [input(prompt)]: the prompt is written, then a line is read. *)
Definition input (prompt : mensaje) : prog pystr := fun w =>
  let w' := Mundo (tail (teclado w)) (red w) (azar w) (pantalla w ++ [prompt]) in
  match teclado w with
  | [] => (Raise EOFError, w')
  | CtrlC :: _ => (Raise KeyboardInterrupt, w')
  | Linea s :: _ => (Ok s, w')
  end.

Definition limpiar_pantalla : prog unit := print Limpiar.

(** [random.choice(l)]: the element at the drawn index, [IndexError] on
    an empty list. *)
Definition random_choice {A} (l : list A) : prog A := fun w =>
  (getitem l (azar w `mod` length l), w).

(** ** The candidate acquirer (lines 46-83) *)

(** [for entry in datos]: what iterating a decoded JSON value yields. *)
Definition iterar (datos : json) : py (list json) :=
  match datos with
  | JArr elems => Ok elems
  | JObj campos => Ok (JStr <$> campos.*1)
  | JStr s => Ok ((λ c, JStr [c]) <$> s)
  | JNull | JBool _ | JNum _ => Raise TypeError
  end.

(** [d.get(k, defecto)] on a decoded object. *)
Fixpoint dict_get (campos : list (pystr * json)) (k : pystr) (defecto : json)
    : json :=
  match campos with
  | [] => defecto
  | (k', v) :: resto => if decide (k' = k) then v else dict_get resto k defecto
  end.

(** [entry.get('word', '')]: only objects have the method. *)
Definition entry_get_word (entry : json) : py json :=
  match entry with
  | JObj campos => Ok (dict_get campos (cps "word") (JStr []))
  | _ => Raise AttributeError
  end.

(** [unicodedata.normalize] refuses what is not a [str]. *)
Definition como_str (v : json) : py pystr :=
  match v with
  | JStr s => Ok s
  | _ => Raise TypeError
  end.

(** [list(dict.fromkeys(l))]: the keys of a dictionary keep the order in
    which they were first inserted. *)
Definition dict_fromkeys (l : list pystr) : list pystr :=
  foldl (λ claves k, if decide (k ∈ claves) then claves else claves ++ [k]) [] l.

Section adquisicion.
Context `{PyLib}.

(** Body of the loop of lines 74-80. *)
Definition filtrar_entrada (longitud : Z) (entry : json)
    (palabras : list pystr) : py (list pystr) :=
  w ← entry_get_word entry;
  w ← como_str w;
  let w_norm := quitar_acentos w in
  if bool_decide (Z.of_nat (length w_norm) = longitud) && str_isalpha w_norm
  then Ok (palabras ++ [w_norm])
  else Ok palabras.

(** Lines 73-83: what the function does with a decoded response. *)
Definition filtrar_datos (longitud : Z) (datos : json) : py (list pystr) :=
  entries ← iterar datos;
  palabras ← for_in entries (filtrar_entrada longitud) [];
  Ok (dict_fromkeys palabras).

Definition obtener_palabras_de_internet (longitud : Z) : prog (list pystr) :=
  fun w =>
    match red w with
    | FalloTransporte e => (print (ErrorConexion e) ≫= λ _, mret []) w
    | NoEsJSON => (print ErrorJSON ≫= λ _, mret []) w
    | Datos datos => lift (filtrar_datos longitud datos) w
    end.

(** ** The game session (lines 22-35 and 143-206) *)

Fixpoint pedir_entero_desde (prompt : mensaje) (min_val max_val : Z)
    (lineas : list entrada) : prog Z :=
  match lineas with
  | [] => input prompt ;; raise EOFError
  | _ :: resto =>
      s ← input prompt;
      match py_int s with
      | Some n =>
          if bool_decide (min_val ≤ n)%Z && bool_decide (n ≤ max_val)%Z
          then mret n
          else print (FueraDeRango min_val max_val) ;;
               pedir_entero_desde prompt min_val max_val resto
      | None =>
          print EnteroInvalido ;;
          pedir_entero_desde prompt min_val max_val resto
      end
  end.

(** The [while True] of [pedir_entero] reads one line per round, so it
    runs at most once per line left on the keyboard; with none left the
    [input] of the next round raises [EOFError].  [pedir_entero_eq] below
    shows that this is the loop of the source. *)
Definition pedir_entero (prompt : mensaje) (min_val max_val : Z) : prog Z :=
  fun w => pedir_entero_desde prompt min_val max_val (teclado w) w.

(** The local variables of [jugar_wordle_es]. *)
Record locales : Type := Locales {
  longitud : Z;
  max_intentos : Z;
  secreto : pystr;
  intentos_info : list (list celda);
  intentos_hechos : Z;
}.

(** How an iteration of the [while] ends. *)
Inductive control : Type :=
  | Continue
  | Break
  | Siguiente.

(** The line [mostrar_tablero] builds for an evaluation: each letter in
    upper case between its colour and the reset code (lines 137-139). *)
Definition linea_tablero (evaluacion : list celda) : pystr :=
  foldl (λ linea c, linea ++ c.2 ++ [32%N] ++ str_upper c.1 ++ [32%N]
                      ++ RESET ++ [32%N])
    [] evaluacion.

(** Lines 132-141: one line per evaluation, then a blank line. *)
Fixpoint mostrar_tablero (intentos_info : list (list celda)) : prog unit :=
  match intentos_info with
  | [] => print LineaEnBlanco
  | evaluacion :: resto =>
      print (LineaTablero (linea_tablero evaluacion)) ;;
      mostrar_tablero resto
  end.

(** [all(color == VERDE for (_, color) in evaluacion)]. *)
Definition todo_verde (evaluacion : list celda) : bool :=
  forallb (λ c : celda, bool_decide (c.2 = VERDE)) evaluacion.

(** Body of the [while] (lines 173-197). *)
Definition turno (v : locales) : prog (control * locales) :=
  raw ← input (PideIntento (intentos_hechos v + 1) (max_intentos v));
  let intento := str_lower (str_strip raw) in
  let intento := quitar_acentos intento in
  if negb (validar_intento intento (longitud v)) then
    print (IntentoInvalido (longitud v)) ;;
    mret (Continue, v)
  else
    evaluacion ← lift (evaluar_intento intento (secreto v));
    let v := Locales (longitud v) (max_intentos v) (secreto v)
               (intentos_info v ++ [evaluacion]) (intentos_hechos v + 1) in
    limpiar_pantalla ;;
    print (Intentos (intentos_hechos v) (max_intentos v)) ;;
    mostrar_tablero (intentos_info v) ;;
    if todo_verde evaluacion then
      print Felicidades ;;
      mret (Break, v)
    else if bool_decide (intentos_hechos v < max_intentos v)%Z then
      print SigueIntentando ;;
      mret (Siguiente, v)
    else
      print SeAcabaron ;;
      print (SecretoEra (str_upper (secreto v))) ;;
      mret (Siguiente, v).

(** How the [while] of line 172 was left. *)
Inductive salida_bucle : Type :=
  | PorBreak
  | PorCondicion.

(** The [while] reads one line per iteration: the recursion follows the
    keyboard, and with no line left the [input] of the next iteration
    raises [EOFError].  [bucle_eq] below shows that this is the loop of
    the source. *)
Fixpoint bucle_desde (lineas : list entrada) (v : locales)
    : prog (salida_bucle * locales) :=
  if bool_decide (intentos_hechos v < max_intentos v)%Z then
    match lineas with
    | [] => turno v ;; raise EOFError
    | _ :: resto =>
        '(c, v') ← turno v;
        match c with
        | Break => mret (PorBreak, v')
        | Continue | Siguiente => bucle_desde resto v'
        end
    end
  else mret (PorCondicion, v).

Definition bucle (v : locales) : prog (salida_bucle * locales) :=
  fun w => bucle_desde (teclado w) v w.

(** Lines 158-170: the pool is fetched and the secret drawn. *)
Definition elegir_secreto (longitud max_intentos : Z) : prog locales :=
  lista_palabras ← obtener_palabras_de_internet longitud;
  match lista_palabras with
  | [] => print (SinPalabras longitud) ;; raise (SystemExit 1)
  | _ =>
      secreto ← random_choice lista_palabras;
      limpiar_pantalla ;;
      print (Comienza max_intentos longitud) ;;
      mret (Locales longitud max_intentos secreto [] 0)
  end.

(** Lines 144-170: up to the first iteration. *)
Definition preparar : prog locales :=
  limpiar_pantalla ;;
  print Bienvenida ;;
  longitud ← pedir_entero PideLongitud 5 10;
  max_intentos ← pedir_entero PideIntentos 1 20;
  print (Obteniendo longitud) ;;
  elegir_secreto longitud max_intentos.

(** The whole function; it hands back how the loop was left and the
    local variables at that point, which Python drops at the return. *)
Definition jugar_wordle_es : prog (salida_bucle * locales) :=
  v ← preparar;
  r ← bucle v;
  print Gracias ;;
  mret r.

(** Lines 201-206. *)
Definition principal : prog (salida_bucle * locales) := fun w =>
  match jugar_wordle_es w with
  | (Raise KeyboardInterrupt, w') =>
      (print Interrumpido ;; raise (SystemExit 0)) w'
  | r => r
  end.

End adquisicion.

(** ** The library on Latin-1 text

    The tables of the Unicode Character Database (version 14) for the code
    points U+0000 to U+00FF, Basic Latin and Latin-1 Supplement, which
    hold the Spanish alphabet, and for the characters the functions below
    produce from them.  On such text a character decomposes into at most
    one base and one mark, so the normal form is the concatenation of the
    decompositions.  The instance says nothing about other code points. *)
Module Latin1.
#[local] Open Scope N_scope.

(** Canonical decompositions: an accented letter is its base letter
    followed by the combining mark. *)
Definition canonica (c : N) : pystr :=
  match c with
  | 0xC0 => [0x41; 0x300]
  | 0xC1 => [0x41; 0x301]
  | 0xC2 => [0x41; 0x302]
  | 0xC3 => [0x41; 0x303]
  | 0xC4 => [0x41; 0x308]
  | 0xC5 => [0x41; 0x30A]
  | 0xC7 => [0x43; 0x327]
  | 0xC8 => [0x45; 0x300]
  | 0xC9 => [0x45; 0x301]
  | 0xCA => [0x45; 0x302]
  | 0xCB => [0x45; 0x308]
  | 0xCC => [0x49; 0x300]
  | 0xCD => [0x49; 0x301]
  | 0xCE => [0x49; 0x302]
  | 0xCF => [0x49; 0x308]
  | 0xD1 => [0x4E; 0x303]
  | 0xD2 => [0x4F; 0x300]
  | 0xD3 => [0x4F; 0x301]
  | 0xD4 => [0x4F; 0x302]
  | 0xD5 => [0x4F; 0x303]
  | 0xD6 => [0x4F; 0x308]
  | 0xD9 => [0x55; 0x300]
  | 0xDA => [0x55; 0x301]
  | 0xDB => [0x55; 0x302]
  | 0xDC => [0x55; 0x308]
  | 0xDD => [0x59; 0x301]
  | 0xE0 => [0x61; 0x300]
  | 0xE1 => [0x61; 0x301]
  | 0xE2 => [0x61; 0x302]
  | 0xE3 => [0x61; 0x303]
  | 0xE4 => [0x61; 0x308]
  | 0xE5 => [0x61; 0x30A]
  | 0xE7 => [0x63; 0x327]
  | 0xE8 => [0x65; 0x300]
  | 0xE9 => [0x65; 0x301]
  | 0xEA => [0x65; 0x302]
  | 0xEB => [0x65; 0x308]
  | 0xEC => [0x69; 0x300]
  | 0xED => [0x69; 0x301]
  | 0xEE => [0x69; 0x302]
  | 0xEF => [0x69; 0x308]
  | 0xF1 => [0x6E; 0x303]
  | 0xF2 => [0x6F; 0x300]
  | 0xF3 => [0x6F; 0x301]
  | 0xF4 => [0x6F; 0x302]
  | 0xF5 => [0x6F; 0x303]
  | 0xF6 => [0x6F; 0x308]
  | 0xF9 => [0x75; 0x300]
  | 0xFA => [0x75; 0x301]
  | 0xFB => [0x75; 0x302]
  | 0xFC => [0x75; 0x308]
  | 0xFD => [0x79; 0x301]
  | 0xFF => [0x79; 0x308]
  | _ => [c]
  end.

(** Compatibility decompositions: spacing accents, ordinal indicators,
    superscript digits, the micro sign, fractions. *)
Definition compatibilidad (c : N) : option pystr :=
  match c with
  | 0xA0 => Some [0x20]
  | 0xA8 => Some [0x20; 0x308]
  | 0xAA => Some [0x61]
  | 0xAF => Some [0x20; 0x304]
  | 0xB2 => Some [0x32]
  | 0xB3 => Some [0x33]
  | 0xB4 => Some [0x20; 0x301]
  | 0xB5 => Some [0x3BC]
  | 0xB8 => Some [0x20; 0x327]
  | 0xB9 => Some [0x31]
  | 0xBA => Some [0x6F]
  | 0xBC => Some [0x31; 0x2044; 0x34]
  | 0xBD => Some [0x31; 0x2044; 0x32]
  | 0xBE => Some [0x33; 0x2044; 0x34]
  | _ => None
  end.

(** The decomposition of a character in the form NFKD, which is what
    [unicodedata.normalize('NFKD', c)] returns for a character of the
    range. *)
Definition descomposicion (c : N) : pystr :=
  match c with
  | 0xA0 => [0x20]
  | 0xA8 => [0x20; 0x308]
  | 0xAA => [0x61]
  | 0xAF => [0x20; 0x304]
  | 0xB2 => [0x32]
  | 0xB3 => [0x33]
  | 0xB4 => [0x20; 0x301]
  | 0xB5 => [0x3BC]
  | 0xB8 => [0x20; 0x327]
  | 0xB9 => [0x31]
  | 0xBA => [0x6F]
  | 0xBC => [0x31; 0x2044; 0x34]
  | 0xBD => [0x31; 0x2044; 0x32]
  | 0xBE => [0x33; 0x2044; 0x34]
  | 0xC0 => [0x41; 0x300]
  | 0xC1 => [0x41; 0x301]
  | 0xC2 => [0x41; 0x302]
  | 0xC3 => [0x41; 0x303]
  | 0xC4 => [0x41; 0x308]
  | 0xC5 => [0x41; 0x30A]
  | 0xC7 => [0x43; 0x327]
  | 0xC8 => [0x45; 0x300]
  | 0xC9 => [0x45; 0x301]
  | 0xCA => [0x45; 0x302]
  | 0xCB => [0x45; 0x308]
  | 0xCC => [0x49; 0x300]
  | 0xCD => [0x49; 0x301]
  | 0xCE => [0x49; 0x302]
  | 0xCF => [0x49; 0x308]
  | 0xD1 => [0x4E; 0x303]
  | 0xD2 => [0x4F; 0x300]
  | 0xD3 => [0x4F; 0x301]
  | 0xD4 => [0x4F; 0x302]
  | 0xD5 => [0x4F; 0x303]
  | 0xD6 => [0x4F; 0x308]
  | 0xD9 => [0x55; 0x300]
  | 0xDA => [0x55; 0x301]
  | 0xDB => [0x55; 0x302]
  | 0xDC => [0x55; 0x308]
  | 0xDD => [0x59; 0x301]
  | 0xE0 => [0x61; 0x300]
  | 0xE1 => [0x61; 0x301]
  | 0xE2 => [0x61; 0x302]
  | 0xE3 => [0x61; 0x303]
  | 0xE4 => [0x61; 0x308]
  | 0xE5 => [0x61; 0x30A]
  | 0xE7 => [0x63; 0x327]
  | 0xE8 => [0x65; 0x300]
  | 0xE9 => [0x65; 0x301]
  | 0xEA => [0x65; 0x302]
  | 0xEB => [0x65; 0x308]
  | 0xEC => [0x69; 0x300]
  | 0xED => [0x69; 0x301]
  | 0xEE => [0x69; 0x302]
  | 0xEF => [0x69; 0x308]
  | 0xF1 => [0x6E; 0x303]
  | 0xF2 => [0x6F; 0x300]
  | 0xF3 => [0x6F; 0x301]
  | 0xF4 => [0x6F; 0x302]
  | 0xF5 => [0x6F; 0x303]
  | 0xF6 => [0x6F; 0x308]
  | 0xF9 => [0x75; 0x300]
  | 0xFA => [0x75; 0x301]
  | 0xFB => [0x75; 0x302]
  | 0xFC => [0x75; 0x308]
  | 0xFD => [0x79; 0x301]
  | 0xFF => [0x79; 0x308]
  | _ => [c]
  end.

Definition combining (c : N) : Z :=
  if bool_decide (c ∈ [0x300; 0x301; 0x302; 0x303; 0x304; 0x308; 0x30A]%N)
  then 230%Z
  else if bool_decide (c = 0x327) then 202%Z
  else 0%Z.

Definition es_mayuscula (c : N) : bool :=
  ((0x41 <=? c) && (c <=? 0x5A)
   || (0xC0 <=? c) && (c <=? 0xDE) && negb (c =? 0xD7))%N.

Definition es_minuscula_par (c : N) : bool :=
  ((0x61 <=? c) && (c <=? 0x7A)
   || (0xE0 <=? c) && (c <=? 0xFE) && negb (c =? 0xF7))%N.

Definition lower_char (c : N) : N :=
  if es_mayuscula c then (c + 32)%N else c.

Definition upper_char (c : N) : pystr :=
  if es_minuscula_par c then [c - 32]
  else if (c =? 0xB5) || (c =? 0x3BC) then [0x39C]
  else if (c =? 0xDF) then [0x53; 0x53]
  else if (c =? 0xFF) then [0x178]
  else [c].

Definition isalpha (c : N) : bool :=
  (es_mayuscula c || es_minuscula_par c
   || bool_decide (c ∈ [0xAA; 0xB5; 0xBA; 0xDF; 0xFF; 0x3BC]))%N.

Definition isspace (c : N) : bool :=
  ((0x09 <=? c) && (c <=? 0x0D) || (0x1C <=? c) && (c <=? 0x20)
   || (c =? 0x85) || (c =? 0xA0))%N.

(** The white space [int] skips at both ends. *)
Definition int_space (c : N) : bool :=
  ((0x09 <=? c) && (c <=? 0x0D) || (c =? 0x20) || (c =? 0x85) || (c =? 0xA0))%N.

Definition es_digito (c : N) : bool := (0x30 <=? c) && (c <=? 0x39).

(** Decimal digits with single underscores between them; [previo] tells
    whether the last character read was a digit. *)
Fixpoint digitos (s : pystr) (previo : bool) (acc : Z) : option Z :=
  match s with
  | [] => if previo then Some acc else None
  | c :: s' =>
      if es_digito c
      then digitos s' true (10 * acc + Z.of_N (c - 0x30))%Z
      else if (c =? 0x5F) && previo then digitos s' false acc
      else None
  end.

(** [int(s)]: white space is skipped at both ends, a sign may come
    first, and the interpreter refuses more than 4300 digits. *)
Definition int (s : pystr) : option Z :=
  let s := reverse (drop_while int_space (reverse (drop_while int_space s))) in
  let '(signo, cuerpo) :=
    match s with
    | 0x2B :: s' => (1%Z, s')
    | 0x2D :: s' => ((-1)%Z, s')
    | _ => (1%Z, s)
    end in
  if 4300 <? N.of_nat (length (filter (λ c, es_digito c = true) cuerpo))
  then None
  else Z.mul signo <$> digitos cuerpo false 0%Z.

(** The normalizer as the specification words it: canonical
    decomposition, marks dropped, lower case. *)
Definition normalize_spec (word : pystr) : pystr :=
  lower_char <$> filter (λ c, combining c = 0%Z) (word ≫= canonica).

#[export] Instance lib : PyLib := {|
  unicodedata_normalize_NFKD s := s ≫= descomposicion;
  unicodedata_combining := combining;
  str_lower s := lower_char <$> s;
  str_upper s := s ≫= upper_char;
  char_isalpha := isalpha;
  char_isspace := isspace;
  py_int := int;
|}.

End Latin1.

(** ** Auxiliary definitions for the proofs *)

(** The evaluator as a recursion over the pairs (letter of the guess,
    letter of the secret); [evaluar_intento_pares] below shows that the
    three loops compute it.  [contar_pares] is the remainder count,
    [marcar_pares] the marks, threading the count from left to right. *)
Fixpoint contar_pares (gs : list (N * N)) (conteo : gmap N Z) : gmap N Z :=
  match gs with
  | [] => conteo
  | (g, s) :: gs' =>
      contar_pares gs'
        (if decide (g = s) then conteo
         else <[s := (default 0 (conteo !! s) + 1)%Z]> conteo)
  end.

Fixpoint marcar_pares (gs : list (N * N)) (conteo : gmap N Z) : list celda :=
  match gs with
  | [] => []
  | (g, s) :: gs' =>
      if decide (g = s) then ([g], VERDE) :: marcar_pares gs' conteo
      else if decide (default 0 (conteo !! g) > 0)%Z then
        ([g], AMARILLO)
          :: marcar_pares gs' (<[g := (default 0 (conteo !! g) - 1)%Z]> conteo)
      else ([g], ROJO) :: marcar_pares gs' conteo
  end.

(** The cells and the flags the first loop leaves. *)
Definition celdas_verdes (gs : list (N * N)) : list celda :=
  (λ p : N * N, if decide (p.1 = p.2) then ([p.1], VERDE) else ([], [])) <$> gs.

Definition posiciones_usadas (gs : list (N * N)) : list bool :=
  (λ p : N * N, bool_decide (p.1 = p.2)) <$> gs.

(** The cells of an evaluation that carry a given mark, and those that
    carry a given letter with the mark green or yellow. *)
Definition con_color (color : pystr) (evaluacion : list celda) : list celda :=
  filter (λ c : celda, c.2 = color) evaluacion.

Definition acreditadas (letra : N) (evaluacion : list celda) : list celda :=
  filter (λ c : celda, c.1 = [letra] ∧ (c.2 = VERDE ∨ c.2 = AMARILLO))
    evaluacion.

(** The positions where guess and secret hold the same letter. *)
Definition coincidencias (intento secreto : pystr) : list (N * N) :=
  filter (λ p : N * N, p.1 = p.2) (zip intento secreto).

(** The first occurrences of a list, in order. *)
Fixpoint primeras (l : list pystr) : list pystr :=
  match l with
  | [] => []
  | x :: l' => x :: filter (λ y, y ≠ x) (primeras l')
  end.

Section sesiones.
Context `{PyLib}.

(** The states a session goes through: the one [preparar] builds from the
    initial world [w0], and those at the head of the [while] after each
    iteration that did not leave it. *)
Inductive alcanzable (w0 : mundo) : locales → mundo → Prop :=
  | alc_inicio v w :
      preparar w0 = (Ok v, w) →
      alcanzable w0 v w
  | alc_turno v w c v' w' :
      alcanzable w0 v w →
      (intentos_hechos v < max_intentos v)%Z →
      turno v w = (Ok (c, v'), w') →
      c ≠ Break →
      alcanzable w0 v' w'.

(** The session is in progress: it is at the head of the [while] and the
    test of line 172 lets it in. *)
Definition en_curso (w0 : mundo) (v : locales) (w : mundo) : Prop :=
  alcanzable w0 v w ∧ (intentos_hechos v < max_intentos v)%Z.

(** The secret of [v] is the word drawn from the pool that the response
    held by the initial world [w0] yields. *)
Definition seleccion_inicial (w0 : mundo) (v : locales) : Prop :=
  ∃ datos lista,
    red w0 = Datos datos ∧
    filtrar_datos (longitud v) datos = Ok lista ∧
    lista !! (azar w0 `mod` length lista) = Some (secreto v).

(** What [mostrar_tablero] prints. *)
Definition tablero (intentos_info : list (list celda)) : list mensaje :=
  (LineaTablero ∘ linea_tablero <$> intentos_info) ++ [LineaEnBlanco].

(** The guess the program evaluates for a line typed by the player. *)
Definition normalizado (raw : pystr) : pystr :=
  quitar_acentos (str_lower (str_strip raw)).

(** The word field of an entry of the response, as the loop reads it. *)
Definition palabra_de_entrada (entry : json) : py pystr :=
  entry_get_word entry ≫= como_str.

(** Whether [pedir_entero] takes a line, and what it prints when it does
    not (lines 29-35). *)
Definition aceptable (min_val max_val : Z) (s : pystr) : bool :=
  match py_int s with
  | Some n => bool_decide (min_val ≤ n)%Z && bool_decide (n ≤ max_val)%Z
  | None => false
  end.

Definition queja (min_val max_val : Z) (s : pystr) : mensaje :=
  match py_int s with
  | Some _ => FueraDeRango min_val max_val
  | None => EnteroInvalido
  end.

(** The test of line 79 on a normalized word. *)
Definition candidata (longitud : Z) (w_norm : pystr) : bool :=
  bool_decide (Z.of_nat (length w_norm) = longitud) && str_isalpha w_norm.

End sesiones.

(** The world once a line has been read and [ms] printed, and the world
    once [ms] has been printed. *)
Definition tras_leer (w : mundo) (ms : list mensaje) : mundo :=
  Mundo (tail (teclado w)) (red w) (azar w) (pantalla w ++ ms).

Definition tras_imprimir (w : mundo) (ms : list mensaje) : mundo :=
  Mundo (teclado w) (red w) (azar w) (pantalla w ++ ms).

(** Text of the Latin-1 range, and the letters a normalized word of such
    text can hold: a to z, and the six letters of the range that have no
    decomposition (sharp s, ae, eth, o with stroke, thorn) or come from
    the micro sign (mu). *)
Definition es_latin1 (s : pystr) : Prop := Forall (λ c, (c < 256)%N) s.

Definition letra_normalizada (c : N) : bool :=
  ((0x61 <=? c) && (c <=? 0x7A)
   || bool_decide (c ∈ [0xDF; 0xE6; 0xF0; 0xF8; 0xFE; 0x3BC]))%N.

(** ** A sample session

    A response with the entries "llama", "cañón", "LLAMA", "de la",
    "perro" and one without word field, for the examples below. *)
Module Ejemplo.

Definition canon_acentuado : pystr := cps "ca" ++ [0xF1; 0xF3]%N ++ cps "n".

Definition CANON_ACENTUADO : pystr := cps "CA" ++ [0xD1; 0xD3]%N ++ cps "N".

Definition registro (palabra : pystr) : json :=
  JObj [(cps "word", JStr palabra); (cps "score", JNum (cps "100"))].

Definition datos : json :=
  JArr [registro (cps "llama"); registro canon_acentuado;
        registro (cps "LLAMA"); registro (cps "de la");
        registro (cps "perro"); JObj [(cps "score", JNum (cps "7"))]].

(** The world at the start of a run: the lines the player will type, the
    response above and a draw that picks the first word of the pool. *)
Definition mundo_inicial (lineas : list string) : mundo :=
  Mundo (Linea ∘ cps <$> lineas) (Datos datos) 3 [].

(** The session once [preparar] has run: its local variables, and the
    world with the lines still to be read. *)
Definition locales_iniciales (max_intentos : Z) : locales :=
  Locales 5 max_intentos (cps "llama") [] 0.

Definition mundo_preparado (max_intentos : Z) (lineas : list string) : mundo :=
  Mundo (Linea ∘ cps <$> lineas) (Datos datos) 3
    [Limpiar; Bienvenida; PideLongitud; PideIntentos; Obteniendo 5; Limpiar;
     Comienza max_intentos 5].

Definition fallo : mundo :=
  Mundo [] (FalloTransporte (cps "timed out")) 0 [].

Definition ilegible : mundo := Mundo [] NoEsJSON 0 [].

Definition vacio : mundo := Mundo [] (Datos (JArr [])) 0 [].

End Ejemplo.

(** * Proofs *)

(** ** Loops *)

Lemma for_in_app {A S} (l1 l2 : list A) (body : A → S → py S) (s : S) :
  for_in (l1 ++ l2) body s = for_in l1 body s ≫= for_in l2 body.
Proof.
  revert s. induction l1 as [|x l1 IH]; intros s; simpl; [done|].
  destruct (body x s) as [s'|e]; simpl; [apply IH | done].
Qed.

(** The rule of the [for] loop over a range: an invariant that holds
    before the loop and that every iteration re-establishes, without
    raising, holds at the end. *)
Lemma for_range_inv {S} (I : nat → S → Prop) n (body : nat → S → py S) s :
  I 0 s →
  (∀ i st, i < n → I i st → ∃ st', body i st = Ok st' ∧ I (Datatypes.S i) st') →
  ∃ st', for_range n body s = Ok st' ∧ I n st'.
Proof.
  intros H0 Hstep. unfold for_range.
  induction n as [|n IH].
  - exists s. done.
  - destruct IH as (st & Hrun & Hst).
    { intros i st' Hi. apply Hstep. lia. }
    destruct (Hstep n st) as (st' & Hbody & Hst'); [lia | done |].
    exists st'. split; [|done].
    rewrite seq_S, for_in_app, Hrun. simpl. by rewrite Hbody.
Qed.

Lemma getitem_Some {A} (l : list A) i x : l !! i = Some x → getitem l i = Ok x.
Proof. unfold getitem. by intros ->. Qed.

Lemma setitem_lt {A} (l : list A) i x :
  i < length l → setitem l i x = Ok (<[i:=x]> l).
Proof. unfold setitem. intros. by rewrite decide_True. Qed.

(** ** The evaluator: the loops compute the recursion over the pairs *)

Section evaluador.
Variables intento secreto : pystr.
Hypothesis Hlen : length secreto ≤ length intento.

Local Abbreviation n := (length secreto).
Local Abbreviation gs := (zip intento secreto).
Local Abbreviation verdes := (celdas_verdes (zip intento secreto)).
Local Abbreviation usados := (posiciones_usadas (zip intento secreto)).

Local Lemma length_gs : length gs = n.
Proof using Hlen. rewrite length_zip. lia. Qed.

Local Lemma lookup_gs i :
  i < n → ∃ g s, gs !! i = Some (g, s) ∧ intento !! i = Some g ∧ secreto !! i = Some s.
Proof using Hlen.
  intros Hi.
  destruct (lookup_lt_is_Some_2 intento i) as [g Hg]; [lia|].
  destruct (lookup_lt_is_Some_2 secreto i) as [s Hs]; [done|].
  exists g, s. split_and!; try done.
  rewrite lookup_zip_with, Hg. simpl. by rewrite Hs.
Qed.

Local Lemma primera_pasada :
  for_range n (pasada_verde intento secreto)
    (replicate n ([], []), replicate n false) = Ok (verdes, usados).
Proof using Hlen.
  destruct (for_range_inv
    (λ k (st : list celda * list bool),
       st.1 = take k verdes ++ replicate (n - k) ([], []) ∧
       st.2 = take k usados ++ replicate (n - k) false)
    n (pasada_verde intento secreto) (replicate n ([], []), replicate n false))
    as ([res us] & Hrun & Hres & Hus).
  - simpl. by rewrite Nat.sub_0_r.
  - intros k [res us] Hk [Hres Hus]. simpl in Hres, Hus.
    destruct (lookup_gs k Hk) as (g & s & Hgs & Hg & Hs).
    assert (verdes !! k
            = Some (if decide (g = s) then ([g], VERDE) else ([], []))) as Hv.
    { unfold celdas_verdes. rewrite list_lookup_fmap, Hgs. done. }
    assert (usados !! k = Some (bool_decide (g = s))) as Hu.
    { unfold posiciones_usadas. rewrite list_lookup_fmap, Hgs. done. }
    assert (length (take k verdes) = k) as Hlv.
    { rewrite length_take. unfold celdas_verdes. rewrite length_fmap, length_gs. lia. }
    assert (length (take k usados) = k) as Hlu.
    { rewrite length_take. unfold posiciones_usadas. rewrite length_fmap, length_gs. lia. }
    replace (n - k) with (Datatypes.S (n - Datatypes.S k)) in Hres, Hus by lia.
    simpl in Hres, Hus.
    unfold pasada_verde.
    rewrite (getitem_Some _ _ _ Hg), (getitem_Some _ _ _ Hs). simpl.
    rewrite (take_S_r _ _ _ Hv), (take_S_r _ _ _ Hu), <- !(assoc_L (++)).
    simpl. destruct (decide (g = s)) as [->|Hne].
    + assert (k < length res) by (rewrite Hres, length_app, Hlv; simpl; lia).
      assert (k < length us) by (rewrite Hus, length_app, Hlu; simpl; lia).
      rewrite !setitem_lt by done.
      simpl. eexists. split; [done|]. simpl.
      rewrite Hres, Hus. split.
      * rewrite insert_app_r_alt by lia. by rewrite Hlv, Nat.sub_diag.
      * rewrite insert_app_r_alt by lia. rewrite Hlu, Nat.sub_diag. simpl.
        by rewrite bool_decide_eq_true_2.
    + eexists. split; [done|]. simpl. rewrite Hres, Hus.
      by rewrite bool_decide_eq_false_2.
  - simpl in Hres, Hus. rewrite Hrun. f_equal.
    rewrite Nat.sub_diag in Hres, Hus. simpl in Hres, Hus.
    rewrite app_nil_r in Hres, Hus. subst res us.
    rewrite !firstn_all2; [done| |].
    + unfold posiciones_usadas. rewrite length_fmap, length_gs. done.
    + unfold celdas_verdes. rewrite length_fmap, length_gs. done.
Qed.

Local Lemma drop_gs k g s :
  gs !! k = Some (g, s) → drop k gs = (g, s) :: drop (S k) gs.
Proof. intros Hk. by rewrite (drop_S _ _ _ Hk). Qed.

Local Lemma segunda_pasada :
  for_range n (contar_resto secreto usados) ∅ = Ok (contar_pares gs ∅).
Proof using Hlen.
  destruct (for_range_inv
    (λ k (conteo : gmap N Z), contar_pares (drop k gs) conteo = contar_pares gs ∅)
    n (contar_resto secreto usados) ∅) as (conteo & Hrun & Hconteo).
  - done.
  - intros k conteo Hk Hinv.
    destruct (lookup_gs k Hk) as (g & s & Hgs & Hg & Hs).
    assert (usados !! k = Some (bool_decide (g = s))) as Hu.
    { unfold posiciones_usadas. rewrite list_lookup_fmap, Hgs. done. }
    rewrite (drop_gs _ _ _ Hgs) in Hinv. simpl in Hinv.
    unfold contar_resto. rewrite (getitem_Some _ _ _ Hu). simpl.
    destruct (decide (g = s)) as [->|Hne].
    + rewrite bool_decide_eq_true_2 by done. simpl. eauto.
    + rewrite bool_decide_eq_false_2 by done. simpl.
      rewrite (getitem_Some _ _ _ Hs). simpl. eauto.
  - rewrite Hrun. f_equal. rewrite <- Hconteo.
    rewrite drop_ge; [done|]. by rewrite length_gs.
Qed.

Local Lemma tercera_pasada conteo0 :
  ∃ conteo, for_range n (pasada_resto intento) (verdes, conteo0)
            = Ok (marcar_pares gs conteo0, conteo).
Proof using Hlen.
  destruct (for_range_inv
    (λ k (st : list celda * gmap N Z),
       ∃ pre, length pre = k ∧ st.1 = pre ++ drop k verdes ∧
              pre ++ marcar_pares (drop k gs) st.2 = marcar_pares gs conteo0)
    n (pasada_resto intento) (verdes, conteo0))
    as ([res conteo] & Hrun & pre & Hpre & Hres & Hfin).
  - exists []. done.
  - intros k [res conteo] Hk (pre & Hpre & Hres & Hfin). simpl in Hres, Hfin.
    destruct (lookup_gs k Hk) as (g & s & Hgs & Hg & Hs).
    assert (verdes !! k
            = Some (if decide (g = s) then ([g], VERDE) else ([], []))) as Hv.
    { unfold celdas_verdes. rewrite list_lookup_fmap, Hgs. done. }
    rewrite (drop_gs _ _ _ Hgs) in Hfin. simpl in Hfin.
    rewrite (drop_S _ _ _ Hv) in Hres.
    assert (k < length res) as Hkres.
    { rewrite Hres, length_app. simpl. lia. }
    assert (∀ x, <[k:=x]> res = (pre ++ [x]) ++ drop (S k) verdes) as Hins.
    { intros x. rewrite Hres, insert_app_r_alt by lia.
      rewrite Hpre, Nat.sub_diag. simpl. by rewrite <- (assoc_L (++)). }
    unfold pasada_resto.
    rewrite (getitem_Some res k
               (if decide (g = s) then ([g], VERDE) else ([], []))).
    2:{ rewrite Hres, lookup_app_r by lia. by rewrite Hpre, Nat.sub_diag. }
    simpl. destruct (decide (g = s)) as [->|Hne]; simpl.
    + eexists. split; [done|]. exists (pre ++ [([s], VERDE)]). simpl.
      split_and!.
      * rewrite length_app. simpl. lia.
      * by rewrite Hres, <- (assoc_L (++)).
      * by rewrite <- (assoc_L (++)).
    + rewrite (getitem_Some _ _ _ Hg). simpl.
      destruct (decide (default 0 (conteo !! g) > 0)%Z) as [Hpos|Hpos].
      * rewrite setitem_lt by done. simpl.
        destruct (conteo !! g) as [v|] eqn:Hc; [|simpl in Hpos; lia].
        simpl in Hfin. eexists. split; [done|].
        exists (pre ++ [([g], AMARILLO)]). simpl. split_and!.
        -- rewrite length_app. simpl. lia.
        -- apply Hins.
        -- by rewrite <- (assoc_L (++)).
      * rewrite setitem_lt by done. simpl.
        eexists. split; [done|].
        exists (pre ++ [([g], ROJO)]). simpl. split_and!.
        -- rewrite length_app. simpl. lia.
        -- apply Hins.
        -- by rewrite <- (assoc_L (++)).
  - simpl in Hres, Hfin. exists conteo. rewrite Hrun. f_equal.
    rewrite (drop_ge verdes) in Hres
      by (unfold celdas_verdes; by rewrite length_fmap, length_gs).
    rewrite (drop_ge gs) in Hfin by (by rewrite length_gs).
    simpl in Hfin. rewrite app_nil_r in Hres, Hfin. congruence.
Qed.

(** The three loops of [evaluar_intento] never raise on a guess at least
    as long as the secret, and return what the recursion returns. *)
Lemma evaluar_intento_pares :
  evaluar_intento intento secreto
  = Ok (marcar_pares (zip intento secreto) (contar_pares (zip intento secreto) ∅)).
Proof using Hlen.
  unfold evaluar_intento.
  rewrite primera_pasada. simpl. rewrite segunda_pasada. simpl.
  destruct (tercera_pasada (contar_pares gs ∅)) as [conteo ->]. done.
Qed.

End evaluador.

(** ** The evaluator: properties of the recursion *)

Lemma colores_distintos :
  VERDE ≠ AMARILLO ∧ VERDE ≠ ROJO ∧ AMARILLO ≠ ROJO
  ∧ VERDE ≠ [] ∧ AMARILLO ≠ [] ∧ ROJO ≠ [].
Proof. by split_and!. Qed.

Lemma length_marcar_pares gs conteo :
  length (marcar_pares gs conteo) = length gs.
Proof.
  revert conteo. induction gs as [|[g s] gs IH]; intros conteo; simpl; [done|].
  repeat case_decide; simpl; by rewrite IH.
Qed.

Lemma letras_marcar_pares gs conteo :
  (marcar_pares gs conteo).*1 = (λ p : N * N, [p.1]) <$> gs.
Proof.
  revert conteo. induction gs as [|[g s] gs IH]; intros conteo; simpl; [done|].
  repeat case_decide; simpl; by rewrite IH.
Qed.

Lemma colores_marcar_pares gs conteo :
  Forall (λ c : celda, c.2 = VERDE ∨ c.2 = AMARILLO ∨ c.2 = ROJO)
    (marcar_pares gs conteo).
Proof.
  revert conteo. induction gs as [|[g s] gs IH]; intros conteo; simpl; [done|].
  repeat case_decide; constructor; simpl; auto.
Qed.

Lemma verdes_marcar_pares gs conteo :
  length (con_color VERDE (marcar_pares gs conteo))
  = length (filter (λ p : N * N, p.1 = p.2) gs).
Proof.
  unfold con_color.
  revert conteo. induction gs as [|[g s] gs IH]; intros conteo; simpl; [done|].
  rewrite (filter_cons _ (g, s)). simpl.
  repeat case_decide; try done.
  - rewrite filter_cons_True by done. simpl. by rewrite IH.
  - rewrite filter_cons_False by done. apply IH.
  - rewrite filter_cons_False by done. apply IH.
Qed.

(** The count after the second loop: the copies of each letter of the
    secret that sit at positions without an exact match. *)
Lemma lookup_contar_pares gs conteo (letra : N) :
  default 0%Z (contar_pares gs conteo !! letra)
  = (default 0 (conteo !! letra)
     + Z.of_nat (length (filter (λ p : N * N, p.1 ≠ p.2 ∧ p.2 = letra) gs)))%Z.
Proof.
  revert conteo. induction gs as [|[g s] gs IH]; intros conteo; simpl; [lia|].
  rewrite IH, (filter_cons _ (g, s)). simpl.
  destruct (decide (g = s)) as [->|Hne].
  - rewrite decide_False by naive_solver. done.
  - destruct (decide (s = letra)) as [->|Hne'].
    + rewrite decide_True by done. rewrite lookup_insert_eq. simpl. lia.
    + rewrite decide_False by naive_solver. by rewrite lookup_insert_ne.
Qed.

(** Every yellow cell uses up one copy of its letter, so the green and
    yellow cells of a letter are bounded by the exact matches of the
    letter plus the copies the count grants it. *)
Lemma acreditadas_marcar_pares (letra : N) gs conteo :
  (0 ≤ default 0 (conteo !! letra))%Z →
  (Z.of_nat (length (acreditadas letra (marcar_pares gs conteo)))
   ≤ default 0 (conteo !! letra)
     + Z.of_nat (length (filter (λ p : N * N, p.1 = p.2 ∧ p.2 = letra) gs)))%Z.
Proof.
  unfold acreditadas.
  revert conteo. induction gs as [|[g s] gs IH]; intros conteo Hpos; simpl; [lia|].
  rewrite (filter_cons _ (g, s)). simpl.
  destruct (decide (g = s)) as [->|Hne].
  - rewrite filter_cons. simpl. specialize (IH conteo Hpos).
    destruct (decide (s = letra)) as [->|Hne'].
    + rewrite decide_True by auto. rewrite decide_True by done. simpl. lia.
    + rewrite decide_False by naive_solver.
      rewrite decide_False by naive_solver. done.
  - rewrite (decide_False (P := g = s ∧ _)) by naive_solver.
    destruct (decide (default 0 (conteo !! g) > 0)%Z) as [Hg|Hg].
    + rewrite filter_cons. simpl.
      destruct (decide (g = letra)) as [->|Hne'].
      * rewrite decide_True by auto. simpl.
        etrans; [|apply Z.le_refl].
        specialize (IH (<[letra:=(default 0 (conteo !! letra) - 1)%Z]> conteo)).
        rewrite lookup_insert_eq in IH. simpl in IH. lia.
      * rewrite decide_False by naive_solver.
        specialize (IH (<[g:=(default 0 (conteo !! g) - 1)%Z]> conteo)).
        rewrite lookup_insert_ne in IH by done. auto.
    + rewrite filter_cons_False; [auto|].
      simpl. intros [_ [?|?]]; done.
Qed.

Lemma filter_letra_pares (letra : N) (gs : list (N * N)) :
  length (filter (λ p : N * N, p.1 ≠ p.2 ∧ p.2 = letra) gs)
  + length (filter (λ p : N * N, p.1 = p.2 ∧ p.2 = letra) gs)
  = length (filter (λ s, s = letra) gs.*2).
Proof.
  induction gs as [|[g s] gs IH]; [done|].
  rewrite fmap_cons, !filter_cons. simpl.
  destruct (decide (s = letra)) as [->|Hne].
  - destruct (decide (g = letra)) as [->|Hne].
    + rewrite decide_False by naive_solver. rewrite decide_True by done.
      simpl. lia.
    + rewrite decide_True by done. rewrite decide_False by naive_solver.
      simpl. lia.
  - rewrite !decide_False by naive_solver. done.
Qed.

(** ** The evaluator: the properties of the specification *)

(** Claim C1.  For words [intento] and [secreto] of equal length,
    [evaluar_intento] returns an evaluation with exactly as many green
    (Correct) cells as there are positions where both words hold the same
    letter. *)
Theorem evaluar_intento_verdes (intento secreto : pystr) :
  length intento = length secreto →
  ∃ evaluacion,
    evaluar_intento intento secreto = Ok evaluacion ∧
    length (con_color VERDE evaluacion)
    = length (coincidencias intento secreto).
Proof.
  intros Hlen. eexists. split.
  - apply evaluar_intento_pares. lia.
  - apply verdes_marcar_pares.
Qed.

Lemma evaluar_intento_verdes_witness :
  ∃ evaluacion,
    evaluar_intento (cps "carro") (cps "coral") = Ok evaluacion ∧
    length (con_color VERDE evaluacion)
    = length (coincidencias (cps "carro") (cps "coral")).
Proof. apply (evaluar_intento_verdes (cps "carro") (cps "coral")). reflexivity. Defined.

(** Claim C2.  For words of equal length and every letter, the cells of
    the evaluation that carry that letter and are green (Correct) or
    yellow (Present) are at most as many as the occurrences of the letter
    in the secret. *)
Theorem evaluar_intento_acreditadas (intento secreto : pystr) (letra : N) :
  length intento = length secreto →
  ∃ evaluacion,
    evaluar_intento intento secreto = Ok evaluacion ∧
    length (acreditadas letra evaluacion)
    ≤ length (filter (λ s, s = letra) secreto).
Proof.
  intros Hlen. eexists. split.
  - apply evaluar_intento_pares. lia.
  - pose proof (acreditadas_marcar_pares letra (zip intento secreto)
                  (contar_pares (zip intento secreto) ∅)) as Hle.
    rewrite lookup_contar_pares, lookup_empty in Hle. simpl in Hle.
    pose proof (filter_letra_pares letra (zip intento secreto)) as Hsum.
    rewrite snd_zip in Hsum by lia. lia.
Qed.

Lemma evaluar_intento_acreditadas_witness :
  ∃ evaluacion,
    evaluar_intento (cps "alloy") (cps "llama") = Ok evaluacion ∧
    length (acreditadas 108 evaluacion)
    ≤ length (filter (λ s, s = 108%N) (cps "llama")).
Proof.
  apply (evaluar_intento_acreditadas (cps "alloy") (cps "llama") 108).
  reflexivity.
Defined.

(** Claim C3.  With the guess "alloy" and the secret "llama" the
    evaluation is [Present, Correct, Present, Absent, Absent].  The first
    loop marks only the exact match at position 1; the count built from
    the unmatched letters of the secret is l:1, a:2, m:1; the third loop
    goes through the unmarked cells from left to right and leaves the
    count at l:0, a:1, m:1. *)
Theorem evaluar_alloy_llama :
  let a := 97%N in let l := 108%N in let m := 109%N in
  let verdes : list celda :=
    [([], []); (cps "l", VERDE); ([], []); ([], []); ([], [])] in
  let usados := [false; true; false; false; false] in
  let final : list celda :=
    [(cps "a", AMARILLO); (cps "l", VERDE); (cps "l", AMARILLO);
     (cps "o", ROJO); (cps "y", ROJO)] in
  evaluar_intento (cps "alloy") (cps "llama") = Ok final ∧
  for_range 5 (pasada_verde (cps "alloy") (cps "llama"))
    (replicate 5 ([], []), replicate 5 false) = Ok (verdes, usados) ∧
  for_range 5 (contar_resto (cps "llama") usados) ∅
  = Ok (<[m := 1%Z]> (<[a := 2%Z]> (<[l := 1%Z]> ∅))) ∧
  for_range 5 (pasada_resto (cps "alloy"))
    (verdes, <[m := 1%Z]> (<[a := 2%Z]> (<[l := 1%Z]> ∅)))
  = Ok (final, <[a := 1%Z]> (<[l := 0%Z]>
          (<[m := 1%Z]> (<[a := 2%Z]> (<[l := 1%Z]> ∅))))).
Proof. vm_compute. split_and!; reflexivity. Qed.

(** Claim C10.  For words of equal length [n] the evaluation has [n]
    cells, the letter of the cell at each position is the letter of the
    guess at that position, and the mark of every cell is one, and only
    one, of green, yellow and red: no cell keeps the empty mark. *)
Theorem evaluar_intento_forma (intento secreto : pystr) :
  length intento = length secreto →
  ∃ evaluacion,
    evaluar_intento intento secreto = Ok evaluacion ∧
    length evaluacion = length secreto ∧
    (∀ i c, intento !! i = Some c → evaluacion.*1 !! i = Some [c]) ∧
    Forall (λ c : celda,
              (c.2 = VERDE ∧ c.2 ≠ AMARILLO ∧ c.2 ≠ ROJO ∨
               c.2 = AMARILLO ∧ c.2 ≠ VERDE ∧ c.2 ≠ ROJO ∨
               c.2 = ROJO ∧ c.2 ≠ VERDE ∧ c.2 ≠ AMARILLO) ∧ c.2 ≠ [])
      evaluacion.
Proof.
  intros Hlen. eexists. split; [apply evaluar_intento_pares; lia|].
  split_and!.
  - rewrite length_marcar_pares, length_zip. lia.
  - intros i c Hi. rewrite letras_marcar_pares.
    destruct (lookup_lt_is_Some_2 secreto i) as [s Hs].
    { apply lookup_lt_Some in Hi. lia. }
    rewrite list_lookup_fmap, lookup_zip_with, Hi. simpl. by rewrite Hs.
  - eapply Forall_impl; [apply colores_marcar_pares|].
    intros [letra color]. simpl. intros [-> | [-> | ->]]; split; try done.
    + left. done.
    + right; left. done.
    + right; right. done.
Qed.

Lemma evaluar_intento_forma_witness :
  ∃ evaluacion,
    evaluar_intento (cps "alloy") (cps "llama") = Ok evaluacion ∧
    length evaluacion = length (cps "llama") ∧
    (∀ i c, cps "alloy" !! i = Some c → evaluacion.*1 !! i = Some [c]) ∧
    Forall (λ c : celda,
              (c.2 = VERDE ∧ c.2 ≠ AMARILLO ∧ c.2 ≠ ROJO ∨
               c.2 = AMARILLO ∧ c.2 ≠ VERDE ∧ c.2 ≠ ROJO ∨
               c.2 = ROJO ∧ c.2 ≠ VERDE ∧ c.2 ≠ AMARILLO) ∧ c.2 ≠ [])
      evaluacion.
Proof. apply (evaluar_intento_forma (cps "alloy") (cps "llama")). reflexivity. Defined.

(** ** The candidate pool *)

Lemma filter_todos {A} (P : A → Prop) `{∀ x, Decision (P x)} (l : list A) :
  (∀ x, P x) → filter P l = l.
Proof.
  intros HP. induction l as [|x l IH]; [done|].
  rewrite filter_cons_True by done. by rewrite IH.
Qed.

Lemma dict_fromkeys_desde (claves l : list pystr) :
  foldl (λ claves k, if decide (k ∈ claves) then claves else claves ++ [k])
    claves l
  = claves ++ filter (λ y, y ∉ claves) (primeras l).
Proof.
  revert claves. induction l as [|x l IH]; intros claves; simpl.
  - by rewrite app_nil_r.
  - rewrite IH. destruct (decide (x ∈ claves)) as [Hin|Hin].
    + rewrite filter_cons_False by auto. f_equal.
      rewrite list_filter_filter. apply list_filter_iff.
      intros y. split; [|tauto]. intros Hy. split; [done|]. congruence.
    + rewrite filter_cons_True by done.
      rewrite <- (assoc_L (++)). simpl. do 2 f_equal.
      rewrite list_filter_filter. apply list_filter_iff.
      intros y. rewrite not_elem_of_app, list_elem_of_singleton. tauto.
Qed.

(** [list(dict.fromkeys(l))] is the list of the first occurrences. *)
Lemma dict_fromkeys_primeras l : dict_fromkeys l = primeras l.
Proof.
  unfold dict_fromkeys. rewrite dict_fromkeys_desde. simpl.
  apply filter_todos. intros y. apply not_elem_of_nil.
Qed.

Lemma elem_of_primeras x l : x ∈ primeras l ↔ x ∈ l.
Proof.
  induction l as [|y l IH]; simpl; [done|].
  rewrite !elem_of_cons, list_elem_of_filter, IH.
  destruct (decide (x = y)); naive_solver.
Qed.

Lemma NoDup_primeras l : NoDup (primeras l).
Proof.
  induction l as [|y l IH]; simpl; [constructor|].
  apply NoDup_cons. split.
  - rewrite list_elem_of_filter. naive_solver.
  - by apply NoDup_filter.
Qed.

Section reserva.
Context `{PyLib}.

Lemma str_isalpha_Forall (s : pystr) :
  str_isalpha s = true → s ≠ [] ∧ Forall (λ c, char_isalpha c = true) s.
Proof.
  intros Hs. split; [by destruct s|].
  assert (forallb char_isalpha s = true) as Hall by (by destruct s).
  clear Hs. induction s as [|c s IH]; [constructor|].
  simpl in Hall. apply andb_true_iff in Hall as [Hc Hall]. constructor; auto.
Qed.

Lemma candidata_spec longitud (w : pystr) :
  candidata longitud w = true ↔
  Z.of_nat (length w) = longitud ∧ str_isalpha w = true.
Proof.
  unfold candidata. rewrite andb_true_iff, bool_decide_eq_true. done.
Qed.

Lemma filtrar_entrada_ok longitud e (s : pystr) palabras :
  palabra_de_entrada e = Ok s →
  filtrar_entrada longitud e palabras
  = Ok (if candidata longitud (quitar_acentos s)
        then palabras ++ [quitar_acentos s] else palabras).
Proof.
  unfold palabra_de_entrada, filtrar_entrada, candidata.
  destruct (entry_get_word e) as [v|]; [|done]. simpl. intros ->. simpl.
  by destruct (_ && _).
Qed.

Lemma filtrar_entrada_inv longitud e palabras final :
  filtrar_entrada longitud e palabras = Ok final →
  ∃ s, palabra_de_entrada e = Ok s.
Proof.
  unfold palabra_de_entrada, filtrar_entrada.
  destruct (entry_get_word e) as [v|]; [|done]. simpl.
  destruct (como_str v) as [s|]; [|done]. eauto.
Qed.

Lemma for_in_cons {A S} (x : A) l (body : A → S → py S) (s : S) :
  for_in (x :: l) body s = body x s ≫= for_in l body.
Proof. done. Qed.

(** The loop over decoded entries whose word field is a string: it
    appends the normalized words that pass the test and never raises. *)
Lemma filtrar_entradas_ok longitud entries (ws : list pystr) palabras :
  Forall2 (λ e s, palabra_de_entrada e = Ok s) entries ws →
  for_in entries (filtrar_entrada longitud) palabras
  = Ok (palabras
        ++ filter (λ p, candidata longitud p = true) (quitar_acentos <$> ws)).
Proof.
  intros Hws. revert palabras.
  induction Hws as [|e s entries ws He _ IH]; intros palabras.
  - simpl. by rewrite app_nil_r.
  - rewrite for_in_cons, (filtrar_entrada_ok _ _ _ _ He), fmap_cons, filter_cons.
    simpl. rewrite IH.
    destruct (candidata longitud (quitar_acentos s)) eqn:Hc.
    + rewrite decide_True by done. by rewrite <- (assoc_L (++)).
    + rewrite decide_False by done. done.
Qed.

(** When the loop ends without raising, every entry had a word field. *)
Lemma filtrar_entradas_inv longitud entries palabras final :
  for_in entries (filtrar_entrada longitud) palabras = Ok final →
  ∃ ws, Forall2 (λ e s, palabra_de_entrada e = Ok s) entries ws.
Proof.
  revert palabras. induction entries as [|e entries IH]; intros palabras.
  - exists []. constructor.
  - rewrite for_in_cons.
    destruct (filtrar_entrada longitud e palabras) as [palabras'|] eqn:He; [|done].
    simpl. intros Hrun.
    apply filtrar_entrada_inv in He as [s Hs]. apply IH in Hrun as [ws Hws].
    exists (s :: ws). by constructor.
Qed.

Lemma filtrar_datos_ok longitud datos entries (ws : list pystr) :
  iterar datos = Ok entries →
  Forall2 (λ e s, palabra_de_entrada e = Ok s) entries ws →
  filtrar_datos longitud datos
  = Ok (primeras (filter (λ p, candidata longitud p = true)
                    (quitar_acentos <$> ws))).
Proof.
  intros Hit Hws. unfold filtrar_datos. rewrite Hit. simpl.
  rewrite (filtrar_entradas_ok _ _ _ _ Hws). simpl.
  by rewrite dict_fromkeys_primeras.
Qed.

Lemma filtrar_datos_inv longitud datos pool :
  filtrar_datos longitud datos = Ok pool →
  ∃ entries ws,
    iterar datos = Ok entries ∧
    Forall2 (λ e s, palabra_de_entrada e = Ok s) entries ws ∧
    pool = primeras (filter (λ p, candidata longitud p = true)
                       (quitar_acentos <$> ws)).
Proof.
  unfold filtrar_datos. intros Hrun.
  destruct (iterar datos) as [entries|] eqn:Hit; [|done]. simpl in Hrun.
  destruct (for_in entries (filtrar_entrada longitud) []) as [palabras|] eqn:Hfor;
    [|done].
  destruct (filtrar_entradas_inv _ _ _ _ Hfor) as [ws Hws].
  exists entries, ws. split_and!; [done..|].
  rewrite (filtrar_entradas_ok _ _ _ _ Hws) in Hfor. simpl in *.
  rewrite dict_fromkeys_primeras in Hrun. congruence.
Qed.

(** What every word of a pool satisfies. *)
Lemma elem_of_pool longitud (ws : list pystr) p :
  p ∈ primeras (filter (λ p, candidata longitud p = true) (quitar_acentos <$> ws)) →
  (∃ s, s ∈ ws ∧ p = quitar_acentos s) ∧
  Z.of_nat (length p) = longitud ∧
  p ≠ [] ∧ Forall (λ c, char_isalpha c = true) p.
Proof.
  rewrite elem_of_primeras, list_elem_of_filter, candidata_spec, list_elem_of_fmap.
  intros [[Hl Ha] (s & -> & Hs)]. apply str_isalpha_Forall in Ha. naive_solver.
Qed.

End reserva.

(** ** The session *)

Lemma tras_imprimir_app w ms1 ms2 :
  tras_imprimir (tras_imprimir w ms1) ms2 = tras_imprimir w (ms1 ++ ms2).
Proof. unfold tras_imprimir. simpl. by rewrite (assoc_L (++)). Qed.

Lemma tras_leer_imprimir w ms1 ms2 :
  tras_imprimir (tras_leer w ms1) ms2 = tras_leer w (ms1 ++ ms2).
Proof. unfold tras_imprimir, tras_leer. simpl. by rewrite (assoc_L (++)). Qed.

Lemma print_eq m w : print m w = (Ok tt, tras_imprimir w [m]).
Proof. done. Qed.

Lemma input_linea prompt w raw resto :
  teclado w = Linea raw :: resto →
  input prompt w = (Ok raw, tras_leer w [prompt]).
Proof. unfold input, tras_leer. by intros ->. Qed.

Lemma input_fin prompt w :
  teclado w = [] → input prompt w = (Raise EOFError, tras_leer w [prompt]).
Proof. unfold input, tras_leer. by intros ->. Qed.

Lemma input_ctrl_c prompt w resto :
  teclado w = CtrlC :: resto →
  input prompt w = (Raise KeyboardInterrupt, tras_leer w [prompt]).
Proof. unfold input, tras_leer. by intros ->. Qed.

Lemma bind_eq {A B} (m : prog A) (f : A → prog B) w :
  (m ≫= f) w = match m w with
               | (Ok a, w') => f a w'
               | (Raise e, w') => (Raise e, w')
               end.
Proof. done. Qed.

(** Runs the prints at the head of a program. *)
Ltac correr :=
  repeat progress
    (rewrite ?bind_eq, ?print_eq, ?tras_leer_imprimir, ?tras_imprimir_app,
       <- ?(assoc_L (++));
     simpl).

Section juego.
Context `{PyLib}.

Lemma mostrar_tablero_eq intentos_info w :
  mostrar_tablero intentos_info w
  = (Ok tt, tras_imprimir w (tablero intentos_info)).
Proof.
  unfold tablero. revert w.
  induction intentos_info as [|ev info IH]; intros w; simpl; [done|].
  correr. rewrite IH. by correr.
Qed.

(** One iteration of the [while] on a line of the keyboard, in closed
    form: the value it leaves in the local variables, how it ends, and
    what it prints. *)
Lemma turno_linea v w raw resto :
  teclado w = Linea raw :: resto →
  turno v w =
    let intento := normalizado raw in
    let pide := PideIntento (intentos_hechos v + 1) (max_intentos v) in
    if validar_intento intento (longitud v) then
      match evaluar_intento intento (secreto v) with
      | Raise e => (Raise e, tras_leer w [pide])
      | Ok evaluacion =>
          let v' := Locales (longitud v) (max_intentos v) (secreto v)
                      (intentos_info v ++ [evaluacion]) (intentos_hechos v + 1) in
          let impreso :=
            [pide; Limpiar; Intentos (intentos_hechos v + 1) (max_intentos v)]
            ++ tablero (intentos_info v ++ [evaluacion]) in
          if todo_verde evaluacion then
            (Ok (Break, v'), tras_leer w (impreso ++ [Felicidades]))
          else if bool_decide (intentos_hechos v + 1 < max_intentos v)%Z then
            (Ok (Siguiente, v'), tras_leer w (impreso ++ [SigueIntentando]))
          else
            (Ok (Siguiente, v'),
             tras_leer w (impreso ++ [SeAcabaron;
                                      SecretoEra (str_upper (secreto v))]))
      end
    else (Ok (Continue, v), tras_leer w [pide; IntentoInvalido (longitud v)]).
Proof.
  intros Hw. unfold turno. rewrite bind_eq, (input_linea _ _ _ _ Hw).
  fold (normalizado raw). simpl.
  destruct (validar_intento (normalizado raw) (longitud v)); simpl.
  - unfold lift. rewrite bind_eq.
    destruct (evaluar_intento (normalizado raw) (secreto v)) as [ev|e]; [|done].
    unfold limpiar_pantalla. correr. rewrite mostrar_tablero_eq. correr.
    destruct (todo_verde ev); [by correr|].
    destruct (bool_decide _); by correr.
  - by correr.
Qed.

Lemma turno_fin v w :
  teclado w = [] →
  turno v w
  = (Raise EOFError,
     tras_leer w [PideIntento (intentos_hechos v + 1) (max_intentos v)]).
Proof. intros Hw. unfold turno. by rewrite bind_eq, (input_fin _ _ Hw). Qed.

Lemma turno_ctrl_c v w resto :
  teclado w = CtrlC :: resto →
  turno v w
  = (Raise KeyboardInterrupt,
     tras_leer w [PideIntento (intentos_hechos v + 1) (max_intentos v)]).
Proof. intros Hw. unfold turno. by rewrite bind_eq, (input_ctrl_c _ _ _ Hw). Qed.

(** Whatever an iteration does, it takes one line from the keyboard and
    leaves the network and the draw alone. *)
Lemma turno_teclado v w r w' :
  turno v w = (r, w') → teclado w' = tail (teclado w).
Proof.
  destruct (teclado w) as [|[raw|] resto] eqn:Hw.
  - rewrite (turno_fin _ _ Hw). intros [= <- <-]. simpl. by rewrite Hw.
  - rewrite (turno_linea _ _ _ _ Hw). simpl.
    repeat case_match; intros [= <- <-]; simpl; by rewrite Hw.
  - rewrite (turno_ctrl_c _ _ _ Hw). intros [= <- <-]. simpl. by rewrite Hw.
Qed.

(** The equation of the [while] of line 172: test, body, and again. *)
Lemma bucle_eq v w :
  bucle v w =
    if bool_decide (intentos_hechos v < max_intentos v)%Z then
      ('(c, v') ← turno v;
       match c with
       | Break => mret (PorBreak, v')
       | Continue | Siguiente => bucle v'
       end) w
    else (Ok (PorCondicion, v), w).
Proof.
  unfold bucle. destruct (teclado w) as [|e resto] eqn:Hw; simpl;
    destruct (bool_decide _); try done.
  - rewrite !bind_eq, (turno_fin _ _ Hw). done.
  - rewrite !bind_eq. destruct (turno v w) as [[[c v']|e'] w'] eqn:Hturno; [|done].
    apply turno_teclado in Hturno. rewrite Hw in Hturno. simpl in Hturno.
    destruct c; simpl; by rewrite ?Hturno.
Qed.

Lemma input_mundo prompt w : ∃ r, input prompt w = (r, tras_leer w [prompt]).
Proof. unfold input, tras_leer. repeat case_match; eauto. Qed.

(** The equation of the [while True] of [pedir_entero]. *)
Lemma pedir_entero_eq prompt min_val max_val w :
  pedir_entero prompt min_val max_val w =
    (s ← input prompt;
     match py_int s with
     | Some n =>
         if bool_decide (min_val ≤ n)%Z && bool_decide (n ≤ max_val)%Z
         then mret n
         else print (FueraDeRango min_val max_val) ;;
              pedir_entero prompt min_val max_val
     | None => print EnteroInvalido ;; pedir_entero prompt min_val max_val
     end) w.
Proof.
  unfold pedir_entero. destruct (teclado w) as [|e resto] eqn:Hw; simpl.
  - rewrite !bind_eq, (input_fin _ _ Hw). done.
  - rewrite !bind_eq. destruct e as [raw|].
    + rewrite (input_linea _ _ _ _ Hw).
      destruct (py_int raw) as [n|]; [destruct (_ && _); [done|]|];
        correr; by rewrite Hw.
    + by rewrite (input_ctrl_c _ _ _ Hw).
Qed.

(** [pedir_entero] only returns a number of the range. *)
Lemma pedir_entero_desde_ok prompt min_val max_val lineas w n w' :
  pedir_entero_desde prompt min_val max_val lineas w = (Ok n, w') →
  (min_val ≤ n ≤ max_val)%Z ∧ red w' = red w ∧ azar w' = azar w.
Proof.
  revert w. induction lineas as [|e resto IH]; intros w; simpl; rewrite bind_eq;
    destruct (input_mundo prompt w) as [[s|e'] ->]; try done.
  destruct (py_int s) as [m|].
  - destruct (bool_decide (min_val ≤ m)%Z) eqn:H1;
      destruct (bool_decide (m ≤ max_val)%Z) eqn:H2; simpl;
      try (correr; intros [? [? ?]]%IH; done).
    intros [= <- <-]. apply bool_decide_eq_true in H1, H2. done.
  - correr. intros [? [? ?]]%IH. done.
Qed.

Lemma pedir_entero_ok prompt min_val max_val w n w' :
  pedir_entero prompt min_val max_val w = (Ok n, w') →
  (min_val ≤ n ≤ max_val)%Z ∧ red w' = red w ∧ azar w' = azar w.
Proof. apply pedir_entero_desde_ok. Qed.

(** When [elegir_secreto] returns, the response was decoded, its pool is
    not empty and the secret is the word at the drawn index. *)
Lemma elegir_secreto_ok longitud max_intentos w v w' :
  elegir_secreto longitud max_intentos w = (Ok v, w') →
  ∃ datos lista s,
    red w = Datos datos ∧
    filtrar_datos longitud datos = Ok lista ∧
    lista !! (azar w `mod` length lista) = Some s ∧
    v = Locales longitud max_intentos s [] 0 ∧
    w' = tras_imprimir w [Limpiar; Comienza max_intentos longitud].
Proof.
  unfold elegir_secreto, obtener_palabras_de_internet. rewrite bind_eq.
  destruct (red w) as [e| |datos] eqn:Hred; [by correr..|].
  unfold lift. destruct (filtrar_datos longitud datos) as [lista|] eqn:Hf; [|done].
  destruct lista as [|p lista]; [by correr|].
  unfold random_choice, getitem. rewrite bind_eq.
  destruct ((p :: lista) !! _) as [s|] eqn:Hs; [|done].
  unfold limpiar_pantalla. correr. intros [= <- <-].
  exists datos, (p :: lista), s. done.
Qed.

Lemma preparar_ok w0 v w :
  preparar w0 = (Ok v, w) →
  (5 ≤ longitud v ≤ 10)%Z ∧ (1 ≤ max_intentos v ≤ 20)%Z ∧
  intentos_info v = [] ∧ intentos_hechos v = 0%Z ∧
  seleccion_inicial w0 v ∧ red w = red w0 ∧ azar w = azar w0.
Proof.
  unfold preparar, limpiar_pantalla. correr.
  destruct (pedir_entero PideLongitud 5 10 _) as [[l|] w1] eqn:H1; [|done].
  apply pedir_entero_ok in H1 as (Hl & Hr1 & Ha1). simpl in Hr1, Ha1.
  rewrite bind_eq.
  destruct (pedir_entero PideIntentos 1 20 _) as [[m|] w2] eqn:H2; [|done].
  apply pedir_entero_ok in H2 as (Hm & Hr2 & Ha2).
  correr. intros Hel.
  apply elegir_secreto_ok in Hel
    as (datos & lista & s & Hred & Hf & Hs & -> & ->).
  simpl in *. split_and!; simpl; try lia; try congruence.
  exists datos, lista. simpl. split_and!; congruence.
Qed.

End juego.

Section partidas.
Context `{PyLib}.

(** An iteration that does not break hands the loop over to the next. *)
Lemma bucle_turno v w c v' w' :
  (intentos_hechos v < max_intentos v)%Z →
  turno v w = (Ok (c, v'), w') →
  c ≠ Break →
  bucle v w = bucle v' w'.
Proof.
  intros Hlt Hturno Hc. rewrite bucle_eq, bool_decide_eq_true_2 by done.
  rewrite bind_eq, Hturno. by destruct c.
Qed.

(** The secret drawn from the pool has the length the player asked for
    and only letters. *)
Lemma seleccion_inicial_secreto w0 v :
  seleccion_inicial w0 v →
  Z.of_nat (length (secreto v)) = longitud v ∧
  Forall (λ c, char_isalpha c = true) (secreto v).
Proof.
  intros (datos & lista & _ & Hf & Hs).
  apply filtrar_datos_inv in Hf as (entries & ws & _ & _ & ->).
  apply list_elem_of_lookup_2, elem_of_pool in Hs. naive_solver.
Qed.

(** What holds at every state of a session. *)
Lemma alcanzable_inv w0 v w :
  alcanzable w0 v w →
  (5 ≤ longitud v ≤ 10)%Z ∧ (1 ≤ max_intentos v ≤ 20)%Z ∧
  seleccion_inicial w0 v ∧
  intentos_hechos v = Z.of_nat (length (intentos_info v)) ∧
  (intentos_hechos v ≤ max_intentos v)%Z ∧
  Forall (λ ev, todo_verde ev = false) (intentos_info v) ∧
  jugar_wordle_es w0 = (r ← bucle v; print Gracias ;; mret r) w.
Proof.
  induction 1 as [v w Hprep|v w c v' w' Halc IH Hlt Hturno Hc].
  - pose proof (preparar_ok _ _ _ Hprep) as (Hl & Hm & Hinfo & Hh & Hsel & _).
    split_and!; try done; try lia.
    + by rewrite Hinfo, Hh.
    + by rewrite Hinfo.
    + unfold jugar_wordle_es. by rewrite bind_eq, Hprep.
  - destruct IH as (Hl & Hm & Hsel & Hh & Hle & Hinfo & Hjugar).
    assert (jugar_wordle_es w0 = (r ← bucle v'; print Gracias ;; mret r) w')
      as Hjugar'.
    { rewrite Hjugar, !(bind_eq (bucle _)).
      by rewrite (bucle_turno _ _ _ _ _ Hlt Hturno Hc). }
    destruct (teclado w) as [|[raw|] resto] eqn:Hw.
    + by rewrite (turno_fin _ _ Hw) in Hturno.
    + rewrite (turno_linea _ _ _ _ Hw) in Hturno. simpl in Hturno.
      destruct (validar_intento _ _).
      * destruct (evaluar_intento _ _) as [ev|]; [|done].
        destruct (todo_verde ev) eqn:Hev; [by simplify_eq|].
        assert (v' = Locales (longitud v) (max_intentos v) (secreto v)
                       (intentos_info v ++ [ev]) (intentos_hechos v + 1)) as ->.
        { by destruct (bool_decide _); simplify_eq. }
        simpl. split_and!; try done; try lia.
        -- rewrite length_app. simpl. lia.
        -- apply Forall_app. split; [done|]. by constructor.
      * by simplify_eq.
    + by rewrite (turno_ctrl_c _ _ _ Hw) in Hturno.
Qed.

Lemma str_isalpha_false (s : pystr) c :
  c ∈ s → char_isalpha c = false → str_isalpha s = false.
Proof.
  intros Hc Hna. destruct (str_isalpha s) eqn:Hs; [|done].
  apply str_isalpha_Forall in Hs as [_ Hs].
  rewrite Forall_forall in Hs. specialize (Hs _ Hc). congruence.
Qed.

(** An accepted guess is always evaluated: the evaluator does not raise
    on a guess that passed the validation. *)
Lemma en_curso_evalua w0 v w raw :
  en_curso w0 v w →
  validar_intento (normalizado raw) (longitud v) = true →
  ∃ evaluacion, evaluar_intento (normalizado raw) (secreto v) = Ok evaluacion.
Proof.
  intros [Halc _] Hval.
  apply alcanzable_inv in Halc as (_ & _ & Hsel & _).
  apply seleccion_inicial_secreto in Hsel as [Hlen _].
  unfold validar_intento in Hval.
  apply andb_true_iff in Hval as [Hl%bool_decide_eq_true _].
  eexists. apply evaluar_intento_pares. lia.
Qed.

End partidas.

(** ** The session: the properties of the specification *)

Section propiedades.
Context `{PyLib}.

(** Claim C4, as the program has it.  The program trims the white space
    at both ends of the line and puts it in lower case before it
    normalizes it (line 173).  In a session in progress, a line whose
    form so normalized has not the length of the secret, or holds a
    character that is not alphabetic, is a rejected turn: the iteration
    ends by [continue] with the local variables as they were, so the
    counter of attempts and the history are unchanged; it prints the
    prompt and the complaint only; and the session is still in progress,
    waiting for the next line. *)
Theorem intento_rechazado w0 v w raw resto :
  en_curso w0 v w →
  teclado w = Linea raw :: resto →
  length (normalizado raw) ≠ length (secreto v)
  ∨ (∃ c, c ∈ normalizado raw ∧ char_isalpha c = false) →
  let w' :=
    tras_leer w [PideIntento (intentos_hechos v + 1) (max_intentos v);
                 IntentoInvalido (longitud v)] in
  turno v w = (Ok (Continue, v), w') ∧
  en_curso w0 v w' ∧
  bucle v w = bucle v w'.
Proof.
  intros [Halc Hlt] Hw Hmal w'.
  assert (validar_intento (normalizado raw) (longitud v) = false) as Hval.
  { pose proof (alcanzable_inv _ _ _ Halc) as (_ & _ & Hsel & _).
    apply seleccion_inicial_secreto in Hsel as [Hlen _].
    unfold validar_intento. destruct Hmal as [Hl|(c & Hc & Hna)].
    - rewrite bool_decide_eq_false_2; [done|]. lia.
    - rewrite (str_isalpha_false _ _ Hc Hna). apply andb_false_r. }
  assert (turno v w = (Ok (Continue, v), w')) as Hturno.
  { rewrite (turno_linea _ _ _ _ Hw). simpl. by rewrite Hval. }
  split_and!; [done| |].
  - split; [|done]. by eapply alc_turno.
  - by eapply bucle_turno.
Qed.

(** Claim C5.  In a session in progress at its last permitted attempt,
    an accepted guess whose evaluation is all green wins: the iteration
    records the evaluation, counts the attempt, prints the board and the
    congratulation, and leaves the loop by its [break]; the branch that
    announces the end of the attempts and reveals the secret is not
    taken, and [jugar_wordle_es] returns after the farewell. *)
Theorem victoria_en_el_ultimo_intento w0 v w raw resto evaluacion :
  en_curso w0 v w →
  (intentos_hechos v + 1 = max_intentos v)%Z →
  teclado w = Linea raw :: resto →
  validar_intento (normalizado raw) (longitud v) = true →
  evaluar_intento (normalizado raw) (secreto v) = Ok evaluacion →
  todo_verde evaluacion = true →
  let v' :=
    Locales (longitud v) (max_intentos v) (secreto v)
      (intentos_info v ++ [evaluacion]) (max_intentos v) in
  let w' :=
    tras_leer w ([PideIntento (max_intentos v) (max_intentos v); Limpiar;
                  Intentos (max_intentos v) (max_intentos v)]
                 ++ tablero (intentos_info v ++ [evaluacion])
                 ++ [Felicidades]) in
  turno v w = (Ok (Break, v'), w') ∧
  bucle v w = (Ok (PorBreak, v'), w') ∧
  jugar_wordle_es w0 = (Ok (PorBreak, v'), tras_imprimir w' [Gracias]).
Proof.
  intros [Halc Hlt] Hult Hw Hval Hev Hverde v' w'.
  assert (turno v w = (Ok (Break, v'), w')) as Hturno.
  { rewrite (turno_linea _ _ _ _ Hw). simpl.
    rewrite Hval, Hev, Hverde, Hult. done. }
  assert (bucle v w = (Ok (PorBreak, v'), w')) as Hbucle.
  { rewrite bucle_eq, bool_decide_eq_true_2 by done.
    by rewrite bind_eq, Hturno. }
  split_and!; [done..|].
  pose proof (alcanzable_inv _ _ _ Halc) as (_ & _ & _ & _ & _ & _ & ->).
  rewrite bind_eq, Hbucle. by correr.
Qed.

(** Claim C6.  In a session in progress at its last permitted attempt,
    an accepted guess whose evaluation is not all green loses: the
    attempts recorded reach the maximum, none of them all green, the loop
    is left by its test, and the last lines of the report are the notice
    that the attempts are over and the secret, which is the word drawn
    from the pool when the session began.  The report shows the secret
    in upper case, as the board shows the letters of the guesses. *)
Theorem derrota_al_agotar_intentos w0 v w raw resto evaluacion :
  en_curso w0 v w →
  (intentos_hechos v + 1 = max_intentos v)%Z →
  teclado w = Linea raw :: resto →
  validar_intento (normalizado raw) (longitud v) = true →
  evaluar_intento (normalizado raw) (secreto v) = Ok evaluacion →
  todo_verde evaluacion = false →
  let v' :=
    Locales (longitud v) (max_intentos v) (secreto v)
      (intentos_info v ++ [evaluacion]) (max_intentos v) in
  let w' :=
    tras_leer w ([PideIntento (max_intentos v) (max_intentos v); Limpiar;
                  Intentos (max_intentos v) (max_intentos v)]
                 ++ tablero (intentos_info v ++ [evaluacion])
                 ++ [SeAcabaron; SecretoEra (str_upper (secreto v)); Gracias]) in
  jugar_wordle_es w0 = (Ok (PorCondicion, v'), w') ∧
  secreto v' = secreto v ∧
  Z.of_nat (length (intentos_info v')) = max_intentos v' ∧
  Forall (λ ev, todo_verde ev = false) (intentos_info v') ∧
  ∃ datos lista,
    red w0 = Datos datos ∧
    filtrar_datos (longitud v) datos = Ok lista ∧
    lista !! (azar w0 `mod` length lista) = Some (secreto v).
Proof.
  intros [Halc Hlt] Hult Hw Hval Hev Hverde v' w'.
  pose proof (alcanzable_inv _ _ _ Halc)
    as (_ & _ & Hsel & Hh & _ & Hinfo & Hjugar).
  assert (turno v w
          = (Ok (Siguiente, v'),
             tras_leer w
               ([PideIntento (max_intentos v) (max_intentos v); Limpiar;
                 Intentos (max_intentos v) (max_intentos v)]
                ++ tablero (intentos_info v ++ [evaluacion])
                ++ [SeAcabaron; SecretoEra (str_upper (secreto v))])))
    as Hturno.
  { rewrite (turno_linea _ _ _ _ Hw). simpl.
    rewrite Hval, Hev, Hverde, Hult.
    by rewrite bool_decide_eq_false_2 by lia. }
  split_and!.
  - rewrite Hjugar, bind_eq.
    rewrite (bucle_turno _ _ _ _ _ Hlt Hturno) by done.
    rewrite bucle_eq. simpl. rewrite bool_decide_eq_false_2 by lia.
    by correr.
  - done.
  - simpl. rewrite length_app. simpl. lia.
  - simpl. apply Forall_app. split; [done|]. by constructor.
  - done.
Qed.

End propiedades.

Section ejemplos_de_sesion.
Import Ejemplo.
#[local] Existing Instance Latin1.lib.

Lemma intento_rechazado_witness :
  let w0 := mundo_inicial ["5"; "1"; "hola"; "llama"]%string in
  let v := locales_iniciales 1 in
  let w := mundo_preparado 1 ["hola"; "llama"]%string in
  ∃ w', turno v w = (Ok (Continue, v), w') ∧
        en_curso w0 v w' ∧
        bucle v w = bucle v w'.
Proof.
  intros w0 v w. eexists.
  apply (intento_rechazado w0 v w (cps "hola") [Linea (cps "llama")]).
  - split; [apply alc_inicio; vm_compute; reflexivity | reflexivity].
  - reflexivity.
  - left. vm_compute. lia.
Defined.

Lemma victoria_en_el_ultimo_intento_witness :
  let w0 := mundo_inicial ["5"; "1"; "llama"]%string in
  let v := locales_iniciales 1 in
  let w := mundo_preparado 1 ["llama"]%string in
  ∃ v' w', turno v w = (Ok (Break, v'), w') ∧
           bucle v w = (Ok (PorBreak, v'), w') ∧
           jugar_wordle_es w0 = (Ok (PorBreak, v'), tras_imprimir w' [Gracias]).
Proof.
  intros w0 v w. do 2 eexists.
  eapply (victoria_en_el_ultimo_intento w0 v w (cps "llama") []).
  - split; [apply alc_inicio; vm_compute; reflexivity | reflexivity].
  - reflexivity.
  - reflexivity.
  - vm_compute. reflexivity.
  - vm_compute. reflexivity.
  - vm_compute. reflexivity.
Defined.

Lemma derrota_al_agotar_intentos_witness :
  let w0 := mundo_inicial ["5"; "1"; "perro"]%string in
  let v := locales_iniciales 1 in
  let w := mundo_preparado 1 ["perro"]%string in
  ∃ v' w',
    jugar_wordle_es w0 = (Ok (PorCondicion, v'), w') ∧
    secreto v' = secreto v ∧
    Z.of_nat (length (intentos_info v')) = max_intentos v' ∧
    Forall (λ ev, todo_verde ev = false) (intentos_info v') ∧
    ∃ datos lista,
      red w0 = Datos datos ∧
      filtrar_datos (longitud v) datos = Ok lista ∧
      lista !! (azar w0 `mod` length lista) = Some (secreto v).
Proof.
  intros w0 v w. do 2 eexists.
  eapply (derrota_al_agotar_intentos w0 v w (cps "perro") []).
  - split; [apply alc_inicio; vm_compute; reflexivity | reflexivity].
  - reflexivity.
  - reflexivity.
  - vm_compute. reflexivity.
  - vm_compute. reflexivity.
  - vm_compute. reflexivity.
Defined.

End ejemplos_de_sesion.

(** ** The acquirer: the properties of the specification *)

Section adquirir.
Context `{PyLib}.

(** Claim C7, as the program has it.  When the transport fails, and when
    the payload cannot be decoded, the function prints a line of
    diagnosis, one for each case, and returns the empty list; when the
    payload is decoded and no entry survives the filter it returns the
    empty list as well and prints nothing.  The value returned carries no
    kind of error: the caller gets the same empty list in the three
    cases, prints the same notice and leaves with status 1. *)
Theorem adquisicion_sin_palabras longitud max_intentos w :
  (∀ e, red w = FalloTransporte e →
     obtener_palabras_de_internet longitud w
     = (Ok [], tras_imprimir w [ErrorConexion e]) ∧
     elegir_secreto longitud max_intentos w
     = (Raise (SystemExit 1),
        tras_imprimir w [ErrorConexion e; SinPalabras longitud])) ∧
  (red w = NoEsJSON →
     obtener_palabras_de_internet longitud w
     = (Ok [], tras_imprimir w [ErrorJSON]) ∧
     elegir_secreto longitud max_intentos w
     = (Raise (SystemExit 1),
        tras_imprimir w [ErrorJSON; SinPalabras longitud])) ∧
  (∀ datos, red w = Datos datos → filtrar_datos longitud datos = Ok [] →
     obtener_palabras_de_internet longitud w = (Ok [], w) ∧
     elegir_secreto longitud max_intentos w
     = (Raise (SystemExit 1), tras_imprimir w [SinPalabras longitud])).
Proof.
  unfold elegir_secreto, obtener_palabras_de_internet.
  split_and!.
  - intros e He. rewrite !bind_eq, He. by correr.
  - intros He. rewrite !bind_eq, He. by correr.
  - intros datos He Hf. rewrite !bind_eq, He. unfold lift. rewrite Hf. by correr.
Qed.

(** Claim C8.  For a decoded response, whenever the function returns a
    pool it has printed nothing, every entry had a word field, and the
    pool is the list of the first occurrences, in order, of the
    normalized words that pass the test of line 79; so the pool has no
    duplicates and each of its words is the normalized form of the word
    of an entry, has the requested length and holds alphabetic characters
    only.  And it does return that pool, without raising, for every
    response whose entries have a word field: the entries that fail the
    test are left out silently. *)
Theorem pool_de_candidatas longitud w datos :
  red w = Datos datos →
  (∀ pool w',
     obtener_palabras_de_internet longitud w = (Ok pool, w') →
     w' = w ∧
     ∃ entries ws,
       iterar datos = Ok entries ∧
       Forall2 (λ e s, palabra_de_entrada e = Ok s) entries ws ∧
       pool = primeras (filter (λ p, candidata longitud p = true)
                          (quitar_acentos <$> ws)) ∧
       NoDup pool ∧
       ∀ p, p ∈ pool →
            (∃ s, s ∈ ws ∧ p = quitar_acentos s) ∧
            Z.of_nat (length p) = longitud ∧
            p ≠ [] ∧ Forall (λ c, char_isalpha c = true) p) ∧
  (∀ entries ws,
     iterar datos = Ok entries →
     Forall2 (λ e s, palabra_de_entrada e = Ok s) entries ws →
     obtener_palabras_de_internet longitud w
     = (Ok (primeras (filter (λ p, candidata longitud p = true)
                        (quitar_acentos <$> ws))), w)).
Proof.
  intros Hred. unfold obtener_palabras_de_internet. rewrite Hred. unfold lift.
  split.
  - intros pool w' [= Hf <-]. split; [done|].
    apply filtrar_datos_inv in Hf as (entries & ws & Hit & Hws & ->).
    exists entries, ws. split_and!; try done.
    + apply NoDup_primeras.
    + apply elem_of_pool.
  - intros entries ws Hit Hws. by rewrite (filtrar_datos_ok _ _ _ _ Hit Hws).
Qed.

End adquirir.

Section ejemplos_de_adquisicion.
Import Ejemplo.
#[local] Existing Instance Latin1.lib.

(** Claim C7, as the specification has it, fails: the call that met a
    transport failure and the call that found no candidate return the
    same value, and so does the call that met an undecodable payload; the
    caller cannot tell them apart. *)
Lemma adquisicion_indistinguible :
  ¬ (fst (obtener_palabras_de_internet 5 fallo)
     ≠ fst (obtener_palabras_de_internet 5 vacio)) ∧
  ¬ (fst (obtener_palabras_de_internet 5 ilegible)
     ≠ fst (obtener_palabras_de_internet 5 vacio)) ∧
  fst (obtener_palabras_de_internet 5 fallo) = Ok [] ∧
  fst (elegir_secreto 5 6 fallo) = Raise (SystemExit 1) ∧
  fst (elegir_secreto 5 6 vacio) = Raise (SystemExit 1).
Proof. split_and!; try done; by intros []. Qed.

Lemma adquisicion_sin_palabras_witness :
  (obtener_palabras_de_internet 5 fallo
   = (Ok [], tras_imprimir fallo [ErrorConexion (cps "timed out")]) ∧
   elegir_secreto 5 6 fallo
   = (Raise (SystemExit 1),
      tras_imprimir fallo [ErrorConexion (cps "timed out"); SinPalabras 5])) ∧
  (obtener_palabras_de_internet 5 ilegible
   = (Ok [], tras_imprimir ilegible [ErrorJSON]) ∧
   elegir_secreto 5 6 ilegible
   = (Raise (SystemExit 1), tras_imprimir ilegible [ErrorJSON; SinPalabras 5])) ∧
  (obtener_palabras_de_internet 5 vacio = (Ok [], vacio) ∧
   elegir_secreto 5 6 vacio
   = (Raise (SystemExit 1), tras_imprimir vacio [SinPalabras 5])).
Proof.
  destruct (adquisicion_sin_palabras 5 6 fallo) as (Hfallo & _ & _).
  destruct (adquisicion_sin_palabras 5 6 ilegible) as (_ & Hilegible & _).
  destruct (adquisicion_sin_palabras 5 6 vacio) as (_ & _ & Hvacio).
  split_and!.
  - apply (Hfallo (cps "timed out")). reflexivity.
  - apply (Hfallo (cps "timed out")). reflexivity.
  - apply Hilegible. reflexivity.
  - apply Hilegible. reflexivity.
  - apply (Hvacio (JArr [])); reflexivity.
  - apply (Hvacio (JArr [])); reflexivity.
Defined.

Lemma pool_de_candidatas_witness :
  let w := mundo_inicial [] in
  obtener_palabras_de_internet 5 w
  = (Ok [cps "llama"; cps "canon"; cps "perro"], w) ∧
  ∀ pool w',
    obtener_palabras_de_internet 5 w = (Ok pool, w') →
    w' = w ∧ NoDup pool ∧ ∀ p, p ∈ pool → Z.of_nat (length p) = 5%Z.
Proof.
  intros w.
  destruct (pool_de_candidatas 5 w datos eq_refl) as [Hinv Hok]. split.
  - apply (Hok [registro (cps "llama"); registro canon_acentuado;
                registro (cps "LLAMA"); registro (cps "de la");
                registro (cps "perro"); JObj [(cps "score", JNum (cps "7"))]]
               [cps "llama"; canon_acentuado; cps "LLAMA"; cps "de la";
                cps "perro"; []]).
    + reflexivity.
    + repeat constructor.
  - intros pool w' Hpool.
    destruct (Hinv pool w' Hpool)
      as (Hw & entries & ws & _ & _ & _ & Hnodup & Hall).
    split_and!; [done..|]. intros p Hp. by destruct (Hall p Hp) as (_ & ? & _).
Defined.

End ejemplos_de_adquisicion.

(** ** Where the program raises *)

Section excepciones.
Import Ejemplo.
#[local] Existing Instance Latin1.lib.

(** The evaluator relies on its caller for the length of the guess: a
    shorter guess runs out at the first loop. *)
Lemma evaluar_intento_corto :
  evaluar_intento (cps "yo") (cps "llama") = Raise IndexError.
Proof. reflexivity. Qed.

(** A decoded response that is not a sequence of records makes the
    acquirer raise: no pool is returned. *)
Lemma filtrar_datos_mal_formados :
  filtrar_datos 5 (JArr [JNum (cps "1")]) = Raise AttributeError ∧
  filtrar_datos 5 (JNum (cps "1")) = Raise TypeError ∧
  filtrar_datos 5 (JArr [JObj [(cps "word", JNull)]]) = Raise TypeError.
Proof. by split_and!. Qed.

(** The interrupt of the player ends the program with status 0. *)
Lemma principal_interrumpido :
  fst (principal (Mundo [Linea (cps "5"); CtrlC] (Datos datos) 0 []))
  = Raise (SystemExit 0).
Proof. reflexivity. Qed.

End excepciones.

(** * Further properties of the program *)

(** ** The evaluator, cell by cell *)

Lemma lookup_marcar_pares gs conteo i (g s : N) :
  gs !! i = Some (g, s) →
  ∃ color, marcar_pares gs conteo !! i = Some ([g], color) ∧
           (color = VERDE ↔ g = s).
Proof.
  revert conteo i. induction gs as [|[g' s'] gs IH]; intros conteo i Hi; [done|].
  destruct i as [|i]; simpl in *.
  - simplify_eq. repeat case_decide; eexists; (split; [done|]); naive_solver.
  - repeat case_decide; simpl; by apply IH.
Qed.

Lemma todo_verde_marcar_pares gs conteo :
  todo_verde (marcar_pares gs conteo) = true ↔
  Forall (λ p : N * N, p.1 = p.2) gs.
Proof.
  unfold todo_verde.
  revert conteo. induction gs as [|[g s] gs IH]; intros conteo; simpl; [done|].
  rewrite Forall_cons. simpl.
  repeat case_decide; simpl; rewrite ?IH; naive_solver.
Qed.

Lemma Forall_zip_eq (l k : pystr) :
  length l = length k →
  Forall (λ p : N * N, p.1 = p.2) (zip l k) ↔ l = k.
Proof.
  revert k. induction l as [|x l IH]; intros [|y k] Hlen; simplify_eq/=; [done|].
  rewrite Forall_cons, IH by done. simpl. naive_solver.
Qed.

(** The cell at each position is green exactly when the guess and the
    secret hold the same letter there. *)
Theorem evaluar_intento_verde_en (intento secreto : pystr) :
  length intento = length secreto →
  ∃ evaluacion,
    evaluar_intento intento secreto = Ok evaluacion ∧
    ∀ i g s, intento !! i = Some g → secreto !! i = Some s →
      ∃ color, evaluacion !! i = Some ([g], color) ∧ (color = VERDE ↔ g = s).
Proof.
  intros Hlen. eexists. split; [apply evaluar_intento_pares; lia|].
  intros i g s Hg Hs. apply lookup_marcar_pares.
  rewrite lookup_zip_with, Hg. simpl. by rewrite Hs.
Qed.

Lemma evaluar_intento_verde_en_witness :
  ∃ evaluacion,
    evaluar_intento (cps "carro") (cps "coral") = Ok evaluacion ∧
    ∀ i g s, cps "carro" !! i = Some g → cps "coral" !! i = Some s →
      ∃ color, evaluacion !! i = Some ([g], color) ∧ (color = VERDE ↔ g = s).
Proof. apply (evaluar_intento_verde_en (cps "carro") (cps "coral")). reflexivity. Defined.

(** The evaluation of a guess as long as the secret is all green exactly
    when the guess is the secret. *)
Theorem evaluar_intento_acierto (intento secreto : pystr) :
  length intento = length secreto →
  ∃ evaluacion,
    evaluar_intento intento secreto = Ok evaluacion ∧
    (todo_verde evaluacion = true ↔ intento = secreto).
Proof.
  intros Hlen. eexists. split; [apply evaluar_intento_pares; lia|].
  by rewrite todo_verde_marcar_pares, Forall_zip_eq.
Qed.

Lemma evaluar_intento_acierto_witness :
  ∃ evaluacion,
    evaluar_intento (cps "llama") (cps "llama") = Ok evaluacion ∧
    (todo_verde evaluacion = true ↔ cps "llama" = cps "llama").
Proof. apply (evaluar_intento_acierto (cps "llama") (cps "llama")). reflexivity. Defined.

(** ** The evaluator, letter by letter *)

Lemma acreditadas_exactas (letra : N) gs conteo :
  (0 ≤ default 0 (conteo !! letra))%Z →
  Z.of_nat (length (acreditadas letra (marcar_pares gs conteo)))
  = (Z.of_nat (length (filter (λ p : N * N, p.1 = p.2 ∧ p.2 = letra) gs))
     + Z.min
         (Z.of_nat (length (filter (λ p : N * N, p.1 ≠ p.2 ∧ p.1 = letra) gs)))
         (default 0 (conteo !! letra)))%Z.
Proof.
  unfold acreditadas.
  revert conteo. induction gs as [|[g s] gs IH]; intros conteo Hpos; simpl; [lia|].
  rewrite !(filter_cons _ (g, s)). simpl.
  destruct (decide (g = s)) as [->|Hne].
  - rewrite (decide_False (P := s ≠ s ∧ _)) by naive_solver.
    rewrite filter_cons. simpl. specialize (IH conteo Hpos).
    destruct (decide (s = letra)) as [->|Hne'].
    + rewrite decide_True by auto. rewrite decide_True by done. simpl. lia.
    + rewrite decide_False by naive_solver.
      rewrite decide_False by naive_solver. done.
  - rewrite (decide_False (P := g = s ∧ _)) by naive_solver.
    destruct (decide (default 0 (conteo !! g) > 0)%Z) as [Hg|Hg].
    + rewrite filter_cons. simpl.
      destruct (decide (g = letra)) as [->|Hne'].
      * rewrite decide_True by auto. rewrite decide_True by done. simpl.
        specialize (IH (<[letra:=(default 0 (conteo !! letra) - 1)%Z]> conteo)).
        rewrite lookup_insert_eq in IH. simpl in IH. lia.
      * rewrite decide_False by naive_solver.
        rewrite decide_False by naive_solver.
        specialize (IH (<[g:=(default 0 (conteo !! g) - 1)%Z]> conteo)).
        rewrite lookup_insert_ne in IH by done. auto.
    + rewrite filter_cons_False by (simpl; intros [_ [?|?]]; done).
      specialize (IH conteo Hpos).
      destruct (decide (g = letra)) as [->|Hne'].
      * rewrite decide_True by done. simpl. lia.
      * rewrite decide_False by naive_solver. done.
Qed.

Lemma filter_letra_pares_intento (letra : N) (gs : list (N * N)) :
  length (filter (λ p : N * N, p.1 ≠ p.2 ∧ p.1 = letra) gs)
  + length (filter (λ p : N * N, p.1 = p.2 ∧ p.2 = letra) gs)
  = length (filter (λ g, g = letra) gs.*1).
Proof.
  induction gs as [|[g s] gs IH]; [done|].
  rewrite fmap_cons, !filter_cons. simpl.
  destruct (decide (g = letra)) as [->|Hne].
  - destruct (decide (letra = s)) as [<-|Hne].
    + rewrite decide_False by naive_solver. rewrite decide_True by done.
      simpl. lia.
    + rewrite decide_True by done. rewrite decide_False by naive_solver.
      simpl. lia.
  - rewrite !decide_False by naive_solver. done.
Qed.

Lemma acreditadas_min (intento secreto : pystr) (letra : N) :
  length intento = length secreto →
  length (acreditadas letra
            (marcar_pares (zip intento secreto)
               (contar_pares (zip intento secreto) ∅)))
  = length (filter (λ g, g = letra) intento)
    `min` length (filter (λ s, s = letra) secreto).
Proof.
  intros Hlen.
  pose proof (acreditadas_exactas letra (zip intento secreto)
                (contar_pares (zip intento secreto) ∅)) as Heq.
  rewrite lookup_contar_pares, lookup_empty in Heq. simpl in Heq.
  pose proof (filter_letra_pares letra (zip intento secreto)) as Hs.
  pose proof (filter_letra_pares_intento letra (zip intento secreto)) as Hg.
  rewrite snd_zip in Hs by lia. rewrite fst_zip in Hg by lia. lia.
Qed.

(** For words of equal length and every letter, the cells that carry the
    letter and are green or yellow are exactly as many as the smaller of
    the occurrences of the letter in the guess and in the secret. *)
Theorem evaluar_intento_minimo (intento secreto : pystr) (letra : N) :
  length intento = length secreto →
  ∃ evaluacion,
    evaluar_intento intento secreto = Ok evaluacion ∧
    length (acreditadas letra evaluacion)
    = length (filter (λ g, g = letra) intento)
      `min` length (filter (λ s, s = letra) secreto).
Proof.
  intros Hlen. eexists. split; [apply evaluar_intento_pares; lia|].
  by apply acreditadas_min.
Qed.

Lemma evaluar_intento_minimo_witness :
  ∃ evaluacion,
    evaluar_intento (cps "alloy") (cps "llama") = Ok evaluacion ∧
    length (acreditadas 108 evaluacion)
    = length (filter (λ g, g = 108%N) (cps "alloy"))
      `min` length (filter (λ s, s = 108%N) (cps "llama")).
Proof.
  apply (evaluar_intento_minimo (cps "alloy") (cps "llama") 108).
  reflexivity.
Defined.

(** A letter that does not occur in the secret is red wherever the guess
    has it; a cell that is green or yellow carries a letter of the
    secret. *)
Theorem evaluar_intento_letra_ausente (intento secreto : pystr) :
  length intento = length secreto →
  ∃ evaluacion,
    evaluar_intento intento secreto = Ok evaluacion ∧
    ∀ (letra : N) (color : pystr),
      ([letra], color) ∈ evaluacion →
      (letra ∉ secreto → color = ROJO) ∧
      (color = VERDE ∨ color = AMARILLO → letra ∈ secreto).
Proof.
  intros Hlen. eexists. split; [apply evaluar_intento_pares; lia|].
  intros letra color Hin.
  assert (color = VERDE ∨ color = AMARILLO → letra ∈ secreto) as Hcred.
  { intros Hcolor.
    assert (([letra], color) ∈ acreditadas letra
              (marcar_pares (zip intento secreto)
                 (contar_pares (zip intento secreto) ∅))) as Hac.
    { unfold acreditadas. rewrite list_elem_of_filter. done. }
    pose proof (acreditadas_min intento secreto letra Hlen) as Hmin.
    destruct (filter (λ s, s = letra) secreto) as [|s l] eqn:Hf.
    - rewrite Nat.min_0_r in Hmin. apply nil_length_inv in Hmin.
      rewrite Hmin in Hac. by apply elem_of_nil in Hac.
    - assert (s ∈ filter (λ s, s = letra) secreto) as Hs
        by (rewrite Hf; apply elem_of_cons; auto).
      apply list_elem_of_filter in Hs as [-> Hs]. done. }
  split; [|done]. intros Hnot.
  pose proof (colores_marcar_pares (zip intento secreto)
                (contar_pares (zip intento secreto) ∅)) as Hcol.
  rewrite Forall_forall in Hcol. specialize (Hcol _ Hin). simpl in Hcol.
  naive_solver.
Qed.

Lemma evaluar_intento_letra_ausente_witness :
  ∃ evaluacion,
    evaluar_intento (cps "alloy") (cps "llama") = Ok evaluacion ∧
    ∀ (letra : N) (color : pystr),
      ([letra], color) ∈ evaluacion →
      (letra ∉ cps "llama" → color = ROJO) ∧
      (color = VERDE ∨ color = AMARILLO → letra ∈ cps "llama").
Proof. apply (evaluar_intento_letra_ausente (cps "alloy") (cps "llama")). reflexivity. Defined.

(** ** The evaluator out of its precondition *)

Lemma for_range_split {S} k n (body : nat → S → py S) (s : S) :
  k ≤ n →
  for_range n body s = for_range k body s ≫= for_in (seq k (n - k)) body.
Proof.
  intros Hk. unfold for_range.
  replace n with (k + (n - k)) at 1 by lia.
  by rewrite seq_app, for_in_app.
Qed.

(** A guess shorter than the secret makes the first loop run past the end
    of the guess: the function raises [IndexError] and returns nothing. *)
Theorem evaluar_intento_IndexError (intento secreto : pystr) :
  length intento < length secreto →
  evaluar_intento intento secreto = Raise IndexError.
Proof.
  intros Hlt. unfold evaluar_intento.
  set (n := length secreto). set (k := length intento).
  rewrite (for_range_split k n) by lia.
  destruct (for_range_inv
    (λ _ (st : list celda * list bool), length st.1 = n ∧ length st.2 = n)
    k (pasada_verde intento secreto) (replicate n ([], []), replicate n false))
    as ([res us] & -> & Hres & Hus).
  - simpl. by rewrite !length_replicate.
  - intros i [res us] Hi [Hres Hus]. simpl in Hres, Hus.
    destruct (lookup_lt_is_Some_2 intento i) as [g Hg]; [done|].
    destruct (lookup_lt_is_Some_2 secreto i) as [s Hs]; [unfold n, k in *; lia|].
    unfold pasada_verde.
    rewrite (getitem_Some _ _ _ Hg), (getitem_Some _ _ _ Hs). simpl.
    destruct (decide (g = s)).
    + rewrite !setitem_lt by lia. simpl. eexists. split; [done|]. simpl.
      by rewrite !length_insert.
    + eauto.
  - assert (pasada_verde intento secreto k (res, us) = Raise IndexError) as Hk.
    { unfold pasada_verde, getitem.
      by rewrite (lookup_ge_None_2 intento k) by done. }
    replace (n - k) with (S (n - S k)) by (unfold n, k; lia).
    cbn [seq mbind py_bind]. by rewrite for_in_cons, Hk.
Qed.

Lemma evaluar_intento_IndexError_witness :
  evaluar_intento (cps "yo") (cps "llama") = Raise IndexError.
Proof. apply (evaluar_intento_IndexError (cps "yo") (cps "llama")). simpl. lia. Defined.

(** Of a guess longer than the secret only the letters in front count:
    the evaluation is that of the guess cut to the length of the
    secret. *)
Theorem evaluar_intento_largo (intento secreto : pystr) :
  length secreto ≤ length intento →
  evaluar_intento intento secreto
  = evaluar_intento (take (length secreto) intento) secreto ∧
  ∃ evaluacion,
    evaluar_intento intento secreto = Ok evaluacion ∧
    length evaluacion = length secreto.
Proof.
  intros Hlen. rewrite (evaluar_intento_pares intento secreto Hlen).
  rewrite (evaluar_intento_pares (take (length secreto) intento) secreto)
    by (rewrite length_take; lia).
  rewrite (zip_with_take_l pair intento secreto). split; [done|].
  eexists. split; [done|]. rewrite length_marcar_pares, length_zip_with. lia.
Qed.

Lemma evaluar_intento_largo_witness :
  evaluar_intento (cps "llamada") (cps "llama")
  = evaluar_intento (take (length (cps "llama")) (cps "llamada")) (cps "llama") ∧
  ∃ evaluacion,
    evaluar_intento (cps "llamada") (cps "llama") = Ok evaluacion ∧
    length evaluacion = length (cps "llama").
Proof. apply (evaluar_intento_largo (cps "llamada") (cps "llama")). simpl. lia. Defined.

(** ** The acquirer: deduplication, membership, ill-formed entries *)

Lemma length_primeras l : length (primeras l) ≤ length l.
Proof.
  induction l as [|x l IH]; simpl; [done|].
  pose proof (length_filter (λ y, y ≠ x) (primeras l)). lia.
Qed.

Lemma filter_distintos (x : pystr) (l : list pystr) :
  x ∉ l → filter (λ y, y ≠ x) l = l.
Proof.
  induction l as [|y l IH]; [done|].
  rewrite not_elem_of_cons. intros [Hxy Hx].
  rewrite filter_cons_True by done. f_equal. by apply IH.
Qed.

Lemma primeras_NoDup l : NoDup l → primeras l = l.
Proof.
  induction 1 as [|x l Hx _ IH]; simpl; [done|].
  by rewrite IH, filter_distintos.
Qed.

(** [list(dict.fromkeys(l))] has no duplicates and the same members as
    [l]; it leaves a list without duplicates as it is, so that doing it
    twice is doing it once; and it never makes the list longer. *)
Theorem dict_fromkeys_sin_duplicados (l : list pystr) :
  NoDup (dict_fromkeys l) ∧
  (∀ x, x ∈ dict_fromkeys l ↔ x ∈ l) ∧
  (NoDup l → dict_fromkeys l = l) ∧
  dict_fromkeys (dict_fromkeys l) = dict_fromkeys l ∧
  length (dict_fromkeys l) ≤ length l.
Proof.
  rewrite !dict_fromkeys_primeras. split_and!.
  - apply NoDup_primeras.
  - intros x. apply elem_of_primeras.
  - apply primeras_NoDup.
  - apply primeras_NoDup, NoDup_primeras.
  - apply length_primeras.
Qed.

Lemma dict_fromkeys_sin_duplicados_witness :
  dict_fromkeys [cps "llama"; cps "perro"] = [cps "llama"; cps "perro"].
Proof.
  destruct (dict_fromkeys_sin_duplicados [cps "llama"; cps "perro"])
    as (_ & _ & Hid & _).
  apply Hid. apply (bool_decide_unpack _). vm_compute. exact I.
Defined.

Lemma py_bind_Ok {A B} (a : A) (f : A → py B) : Ok a ≫= f = f a.
Proof. done. Qed.

Lemma dict_get_ausente campos k defecto :
  k ∉ campos.*1 → dict_get campos k defecto = defecto.
Proof.
  induction campos as [|[k' v] campos IH]; simpl; [done|].
  rewrite not_elem_of_cons. intros [Hk Hin].
  rewrite decide_False by done. by apply IH.
Qed.

Section reserva_extra.
Context `{PyLib}.

(** For a response whose entries all have a word field, a word is in the
    pool exactly when it passes the test of line 79 and is the normalized
    form of the word of some entry: the deduplication loses no
    candidate.  The pool has at most one word per entry. *)
Theorem pool_completa longitud w datos entries (ws : list pystr) :
  red w = Datos datos →
  iterar datos = Ok entries →
  Forall2 (λ e s, palabra_de_entrada e = Ok s) entries ws →
  ∃ pool,
    obtener_palabras_de_internet longitud w = (Ok pool, w) ∧
    (∀ p, p ∈ pool ↔
          candidata longitud p = true ∧ ∃ s, s ∈ ws ∧ p = quitar_acentos s) ∧
    length pool ≤ length entries.
Proof.
  intros Hred Hit Hws. eexists. split_and!.
  - unfold obtener_palabras_de_internet, lift.
    by rewrite Hred, (filtrar_datos_ok _ _ _ _ Hit Hws).
  - intros p. rewrite elem_of_primeras, list_elem_of_filter, list_elem_of_fmap.
    naive_solver.
  - etrans; [apply length_primeras|]. etrans; [apply length_filter|].
    rewrite length_fmap. by rewrite (Forall2_length _ _ _ Hws).
Qed.

(** An entry that is not a record, or whose word is not a string, is not
    skipped: the loop raises ([AttributeError] for the first,
    [TypeError] for the second) when it reaches it, nothing is printed
    and no pool is returned. *)
Theorem entrada_mal_formada longitud w previas (ws : list pystr) e resto :
  red w = Datos (JArr (previas ++ e :: resto)) →
  Forall2 (λ e s, palabra_de_entrada e = Ok s) previas ws →
  ((∀ campos, e ≠ JObj campos) →
   obtener_palabras_de_internet longitud w = (Raise AttributeError, w)) ∧
  (∀ campos, e = JObj campos →
     (∀ s, dict_get campos (cps "word") (JStr []) ≠ JStr s) →
     obtener_palabras_de_internet longitud w = (Raise TypeError, w)).
Proof.
  intros Hred Hws.
  assert (∀ x, (∀ palabras, filtrar_entrada longitud e palabras = Raise x) →
               obtener_palabras_de_internet longitud w = (Raise x, w)) as Hraise.
  { intros x Hx. unfold obtener_palabras_de_internet, lift, filtrar_datos.
    rewrite Hred. cbn [iterar]. rewrite py_bind_Ok.
    rewrite for_in_app, (filtrar_entradas_ok _ _ _ _ Hws), py_bind_Ok.
    by rewrite for_in_cons, Hx. }
  split.
  - intros He. apply Hraise. intros palabras. unfold filtrar_entrada.
    destruct e; try done. by destruct (He campos).
  - intros campos -> Hword. apply Hraise. intros palabras.
    unfold filtrar_entrada. simpl.
    destruct (dict_get campos (cps "word") (JStr [])) eqn:Hget; try done.
    by destruct (Hword s).
Qed.

End reserva_extra.

Section ejemplos_de_reserva.
Import Ejemplo.
#[local] Existing Instance Latin1.lib.

Lemma pool_completa_witness :
  ∃ pool,
    obtener_palabras_de_internet 5 (mundo_inicial []) = (Ok pool, mundo_inicial []) ∧
    (∀ p, p ∈ pool ↔
          candidata 5 p = true ∧
          ∃ s, s ∈ [cps "llama"; canon_acentuado; cps "LLAMA"; cps "de la";
                    cps "perro"; []] ∧ p = quitar_acentos s) ∧
    length pool ≤ 6.
Proof.
  apply (pool_completa 5 (mundo_inicial []) datos
           [registro (cps "llama"); registro canon_acentuado;
            registro (cps "LLAMA"); registro (cps "de la");
            registro (cps "perro"); JObj [(cps "score", JNum (cps "7"))]]).
  - reflexivity.
  - reflexivity.
  - repeat constructor.
Defined.

Lemma entrada_mal_formada_witness :
  obtener_palabras_de_internet 5
    (Mundo [] (Datos (JArr [registro (cps "llama"); JNum (cps "1")])) 0 [])
  = (Raise AttributeError,
     Mundo [] (Datos (JArr [registro (cps "llama"); JNum (cps "1")])) 0 []) ∧
  obtener_palabras_de_internet 5
    (Mundo [] (Datos (JArr [registro (cps "llama");
                            JObj [(cps "word", JNull)]])) 0 [])
  = (Raise TypeError,
     Mundo [] (Datos (JArr [registro (cps "llama");
                            JObj [(cps "word", JNull)]])) 0 []).
Proof.
  split.
  - apply (entrada_mal_formada 5 _ [registro (cps "llama")] [cps "llama"]
             (JNum (cps "1")) []); [reflexivity|repeat constructor|done].
  - eapply (entrada_mal_formada 5 _ [registro (cps "llama")] [cps "llama"]
              (JObj [(cps "word", JNull)]) []);
      [reflexivity|repeat constructor|reflexivity|done].
Defined.

(** An entry without word field counts as the empty word, which never
    passes the test: the entry is left out, whatever the length asked. *)
Theorem entrada_sin_palabra longitud campos palabras :
  cps "word" ∉ campos.*1 →
  filtrar_entrada longitud (JObj campos) palabras = Ok palabras.
Proof.
  intros Hk. unfold filtrar_entrada. simpl.
  rewrite (dict_get_ausente _ _ _ Hk). simpl. by rewrite andb_false_r.
Qed.

Lemma entrada_sin_palabra_witness :
  filtrar_entrada 0 (JObj [(cps "score", JNum (cps "7"))]) [cps "llama"]
  = Ok [cps "llama"].
Proof.
  apply (entrada_sin_palabra 0 [(cps "score", JNum (cps "7"))] [cps "llama"]).
  simpl. by intros [=]%list_elem_of_singleton.
Defined.

End ejemplos_de_reserva.

(** ** Reading a number *)

Section numeros.
Context `{PyLib}.

Lemma pedir_entero_rechaza prompt min_val max_val w s resto :
  teclado w = Linea s :: resto →
  aceptable min_val max_val s = false →
  pedir_entero prompt min_val max_val w
  = pedir_entero prompt min_val max_val
      (tras_leer w [prompt; queja min_val max_val s]).
Proof.
  intros Hw Hs. rewrite pedir_entero_eq, bind_eq, (input_linea _ _ _ _ Hw).
  unfold aceptable, queja in *.
  destruct (py_int s) as [n|]; [rewrite Hs|]; by correr.
Qed.

(** [pedir_entero] returns the number of the first line that is an
    integer of the range; every line before it costs one prompt and one
    complaint, and the lines after it stay on the keyboard. *)
Theorem pedir_entero_primera_valida prompt min_val max_val w
    (malas : list pystr) buena n resto :
  teclado w = (Linea <$> malas) ++ Linea buena :: resto →
  Forall (λ s, aceptable min_val max_val s = false) malas →
  py_int buena = Some n →
  (min_val ≤ n ≤ max_val)%Z →
  pedir_entero prompt min_val max_val w
  = (Ok n,
     Mundo resto (red w) (azar w)
       (pantalla w ++ (malas ≫= λ s, [prompt; queja min_val max_val s])
          ++ [prompt])).
Proof.
  intros Hw Hmalas Hn Hrango. revert w Hw.
  induction Hmalas as [|s malas Hs _ IH]; intros w Hw; simpl in Hw.
  - rewrite pedir_entero_eq, bind_eq, (input_linea _ _ _ _ Hw), Hn.
    rewrite !bool_decide_eq_true_2 by lia. simpl.
    unfold tras_leer. by rewrite Hw.
  - rewrite (pedir_entero_rechaza _ _ _ _ _ _ Hw Hs).
    rewrite IH by (simpl; by rewrite Hw).
    simpl. by rewrite <- !(assoc_L (++)).
Qed.

(** Lines that are not integers of the range never end the function:
    with nothing else to read it raises [EOFError] at the next prompt,
    and at the interrupt of the user [KeyboardInterrupt]. *)
Theorem pedir_entero_sin_valida prompt min_val max_val w (malas : list pystr) :
  Forall (λ s, aceptable min_val max_val s = false) malas →
  (teclado w = Linea <$> malas →
   pedir_entero prompt min_val max_val w
   = (Raise EOFError,
      Mundo [] (red w) (azar w)
        (pantalla w ++ (malas ≫= λ s, [prompt; queja min_val max_val s])
           ++ [prompt]))) ∧
  (∀ resto, teclado w = (Linea <$> malas) ++ CtrlC :: resto →
   pedir_entero prompt min_val max_val w
   = (Raise KeyboardInterrupt,
      Mundo resto (red w) (azar w)
        (pantalla w ++ (malas ≫= λ s, [prompt; queja min_val max_val s])
           ++ [prompt]))).
Proof.
  intros Hmalas. revert w.
  induction Hmalas as [|s malas Hs _ IH]; intros w; simpl.
  - split.
    + intros Hw. rewrite pedir_entero_eq, bind_eq, (input_fin _ _ Hw).
      unfold tras_leer. by rewrite Hw.
    + intros resto Hw.
      rewrite pedir_entero_eq, bind_eq, (input_ctrl_c _ _ _ Hw).
      unfold tras_leer. by rewrite Hw.
  - split.
    + intros Hw. rewrite (pedir_entero_rechaza _ _ _ _ _ _ Hw Hs).
      destruct (IH (tras_leer w [prompt; queja min_val max_val s])) as [-> _].
      * simpl. by rewrite <- !(assoc_L (++)).
      * simpl. by rewrite Hw.
    + intros resto Hw. rewrite (pedir_entero_rechaza _ _ _ _ _ _ Hw Hs).
      destruct (IH (tras_leer w [prompt; queja min_val max_val s])) as [_ Hctrl].
      rewrite (Hctrl resto) by (simpl; by rewrite Hw).
      simpl. by rewrite <- !(assoc_L (++)).
Qed.

End numeros.

Section ejemplos_de_numeros.
#[local] Existing Instance Latin1.lib.

Lemma pedir_entero_primera_valida_witness :
  pedir_entero PideLongitud 5 10
    (Mundo (Linea ∘ cps <$> ["cinco"; "4"; " 7 "; "8"]%string) NoEsJSON 0 [])
  = (Ok 7%Z,
     Mundo [Linea (cps "8")] NoEsJSON 0
       [PideLongitud; EnteroInvalido; PideLongitud; FueraDeRango 5 10;
        PideLongitud]).
Proof.
  assert (Forall (λ s, aceptable 5 10 s = false) [cps "cinco"; cps "4"])
    as Hmalas by (by repeat constructor).
  assert (5 ≤ 7 ≤ 10)%Z as Hrango by lia.
  exact (pedir_entero_primera_valida PideLongitud 5 10
           (Mundo (Linea ∘ cps <$> ["cinco"; "4"; " 7 "; "8"]%string)
              NoEsJSON 0 [])
           [cps "cinco"; cps "4"] (cps " 7 ") 7 [Linea (cps "8")]
           eq_refl Hmalas eq_refl Hrango).
Defined.

Lemma pedir_entero_sin_valida_witness :
  pedir_entero PideIntentos 1 20
    (Mundo (Linea ∘ cps <$> ["0"; "veinte"]%string) NoEsJSON 0 [])
  = (Raise EOFError,
     Mundo [] NoEsJSON 0
       [PideIntentos; FueraDeRango 1 20; PideIntentos; EnteroInvalido;
        PideIntentos]) ∧
  pedir_entero PideIntentos 1 20
    (Mundo [Linea (cps "21"); CtrlC; Linea (cps "3")] NoEsJSON 0 [])
  = (Raise KeyboardInterrupt,
     Mundo [Linea (cps "3")] NoEsJSON 0
       [PideIntentos; FueraDeRango 1 20; PideIntentos]).
Proof.
  assert (Forall (λ s, aceptable 1 20 s = false) [cps "0"; cps "veinte"])
    as Hmalas by (by repeat constructor).
  assert (Forall (λ s, aceptable 1 20 s = false) [cps "21"])
    as Hmala by (by repeat constructor).
  split.
  - exact (proj1 (pedir_entero_sin_valida PideIntentos 1 20
                    (Mundo (Linea ∘ cps <$> ["0"; "veinte"]%string)
                       NoEsJSON 0 [])
                    [cps "0"; cps "veinte"] Hmalas) eq_refl).
  - exact (proj2 (pedir_entero_sin_valida PideIntentos 1 20
                    (Mundo [Linea (cps "21"); CtrlC; Linea (cps "3")]
                       NoEsJSON 0 [])
                    [cps "21"] Hmala) [Linea (cps "3")] eq_refl).
Defined.

End ejemplos_de_numeros.

(** ** The session, turn by turn *)

Section sesion_extra.
Context `{PyLib}.

Lemma str_isalpha_intro (s : pystr) :
  s ≠ [] → Forall (λ c, char_isalpha c = true) s → str_isalpha s = true.
Proof.
  intros Hs Hall.
  assert (forallb char_isalpha s = true) as Hb.
  { clear Hs. induction Hall as [|c s Hc _ IH]; [done|]. simpl.
    by rewrite Hc, IH. }
  by destruct s.
Qed.

(** The secret of a session passes the validation of guesses. *)
Lemma secreto_valido w0 v w :
  alcanzable w0 v w → validar_intento (secreto v) (longitud v) = true.
Proof.
  intros Halc.
  apply alcanzable_inv in Halc as (Hl & _ & Hsel & _).
  apply seleccion_inicial_secreto in Hsel as [Hlen Halpha].
  unfold validar_intento. rewrite bool_decide_eq_true_2 by done. simpl.
  apply str_isalpha_intro; [|done]. intros Hnil. rewrite Hnil in Hlen.
  simpl in Hlen. lia.
Qed.

(** What an iteration does to the local variables when it accepts the
    line: the evaluation it appends. *)
Lemma turno_aceptado w0 v w raw resto :
  alcanzable w0 v w →
  teclado w = Linea raw :: resto →
  validar_intento (normalizado raw) (longitud v) = true →
  ∃ evaluacion c w',
    evaluar_intento (normalizado raw) (secreto v) = Ok evaluacion ∧
    Z.of_nat (length evaluacion) = longitud v ∧
    (todo_verde evaluacion = true ↔ normalizado raw = secreto v) ∧
    turno v w
    = (Ok (c, Locales (longitud v) (max_intentos v) (secreto v)
                (intentos_info v ++ [evaluacion]) (intentos_hechos v + 1)), w') ∧
    teclado w' = resto ∧
    (c = Break ↔ todo_verde evaluacion = true) ∧ c ≠ Continue.
Proof.
  intros Halc Hw Hval.
  pose proof (alcanzable_inv _ _ _ Halc) as (_ & _ & Hsel & _).
  apply seleccion_inicial_secreto in Hsel as [Hlen _].
  assert (length (normalizado raw) = length (secreto v)) as Hlong.
  { unfold validar_intento in Hval.
    apply andb_true_iff in Hval as [Hl%bool_decide_eq_true _]. lia. }
  pose proof (evaluar_intento_pares (normalizado raw) (secreto v)) as Hev.
  rewrite Hev by lia. clear Hev.
  set (ev := marcar_pares _ _).
  assert (evaluar_intento (normalizado raw) (secreto v) = Ok ev) as Hev.
  { apply evaluar_intento_pares. lia. }
  assert (teclado (tras_leer w [PideIntento (intentos_hechos v + 1)
                                  (max_intentos v)]) = resto) as Hresto.
  { simpl. by rewrite Hw. }
  exists ev. rewrite (turno_linea _ _ _ _ Hw). simpl. rewrite Hval, Hev.
  destruct (todo_verde ev) eqn:Hverde;
    [|destruct (bool_decide _)]; do 2 eexists;
    (split_and!; [done| | |done| | |done]);
    try (unfold ev; rewrite length_marcar_pares, length_zip; lia);
    try (unfold ev in Hverde |- *;
         rewrite <- (Forall_zip_eq _ _ Hlong), <- todo_verde_marcar_pares;
         by rewrite Hverde);
    try (simpl; by rewrite Hw);
    naive_solver.
Qed.

(** In a session in progress a typed line never makes the turn raise.
    The turn takes that line and no other; it is rejected exactly when
    the validation fails, and it wins exactly when the normalized line is
    the secret; every turn that is not rejected counts one attempt. *)
Theorem turno_en_curso w0 v w raw resto :
  en_curso w0 v w →
  teclado w = Linea raw :: resto →
  ∃ c v' w',
    turno v w = (Ok (c, v'), w') ∧
    teclado w' = resto ∧
    (c = Continue ↔ validar_intento (normalizado raw) (longitud v) = false) ∧
    (c = Break ↔ normalizado raw = secreto v) ∧
    (c = Continue → v' = v) ∧
    (c ≠ Continue →
     intentos_hechos v' = (intentos_hechos v + 1)%Z ∧
     length (intentos_info v') = S (length (intentos_info v))).
Proof.
  intros [Halc Hlt] Hw.
  destruct (validar_intento (normalizado raw) (longitud v)) eqn:Hval.
  - destruct (turno_aceptado _ _ _ _ _ Halc Hw Hval)
      as (ev & c & w' & _ & _ & Hiff & Hturno & Hresto & Hbreak & Hcont).
    exists c. do 2 eexists. split_and!; try done.
    + by rewrite Hbreak.
    + intros _. simpl. rewrite length_app. simpl. split; [done|lia].
  - pose proof (secreto_valido _ _ _ Halc) as Hsec.
    rewrite (turno_linea _ _ _ _ Hw). simpl. rewrite Hval.
    exists Continue. do 2 eexists. split_and!; try done.
    + simpl. by rewrite Hw.
    + split; [done|]. intros Heq. rewrite Heq in Hval. congruence.
Qed.

(** What holds at every state of a session: the lengths asked at the
    start are in their ranges; the secret has the length asked; the
    counter of attempts is the length of the history and is within the
    budget; every evaluation of the history has one cell per letter of
    the secret, and none of them is all green. *)
Theorem sesion_invariantes w0 v w :
  alcanzable w0 v w →
  (5 ≤ longitud v ≤ 10)%Z ∧ (1 ≤ max_intentos v ≤ 20)%Z ∧
  Z.of_nat (length (secreto v)) = longitud v ∧
  intentos_hechos v = Z.of_nat (length (intentos_info v)) ∧
  (0 ≤ intentos_hechos v ≤ max_intentos v)%Z ∧
  Forall (λ ev, Z.of_nat (length ev) = longitud v ∧ todo_verde ev = false)
    (intentos_info v).
Proof.
  intros Halc.
  pose proof (alcanzable_inv _ _ _ Halc) as (Hl & Hm & Hsel & Hh & Hle & Hinfo & _).
  apply seleccion_inicial_secreto in Hsel as [Hlen _].
  split_and!; try done; try lia.
  apply Forall_and. split; [|done]. clear -Halc.
  induction Halc as [v w Hprep|v w c v' w' Halc IH Hlt Hturno Hc].
  - apply preparar_ok in Hprep as (_ & _ & -> & _). constructor.
  - destruct (teclado w) as [|[raw|] resto] eqn:Hw.
    + by rewrite (turno_fin _ _ Hw) in Hturno.
    + destruct (validar_intento (normalizado raw) (longitud v)) eqn:Hval.
      * destruct (turno_aceptado _ _ _ _ _ Halc Hw Hval)
          as (ev & c' & w'' & _ & Hlong & _ & Hturno' & _).
        rewrite Hturno' in Hturno. simplify_eq. simpl.
        apply Forall_app. split; [done|]. by constructor.
      * rewrite (turno_linea _ _ _ _ Hw) in Hturno. simpl in Hturno.
        rewrite Hval in Hturno. by simplify_eq.
    + by rewrite (turno_ctrl_c _ _ _ Hw) in Hturno.
Qed.

End sesion_extra.

(** ** The session, from its start to its end *)

Section sesion_completa.
Context `{PyLib}.

(** With a pool that is not empty the secret is the word of the pool at
    the drawn index; with a pool of one word it is that word, whatever
    the draw. *)
Theorem elegir_secreto_de_la_reserva longitud max_intentos w datos pool :
  red w = Datos datos →
  filtrar_datos longitud datos = Ok pool →
  pool ≠ [] →
  ∃ s,
    elegir_secreto longitud max_intentos w
    = (Ok (Locales longitud max_intentos s [] 0),
       tras_imprimir w [Limpiar; Comienza max_intentos longitud]) ∧
    pool !! (azar w `mod` length pool) = Some s ∧
    s ∈ pool ∧
    (∀ p, pool = [p] → s = p).
Proof.
  intros Hred Hf Hpool.
  destruct (lookup_lt_is_Some_2 pool (azar w `mod` length pool)) as [s Hs].
  { apply Nat.mod_upper_bound. by destruct pool. }
  exists s. split_and!; [|done| |].
  - unfold elegir_secreto, obtener_palabras_de_internet, lift.
    rewrite bind_eq, Hred, Hf. destruct pool as [|p pool]; [done|].
    unfold random_choice, limpiar_pantalla.
    rewrite bind_eq, (getitem_Some _ _ _ Hs). by correr.
  - by eapply list_elem_of_lookup_2.
  - intros p ->. apply list_elem_of_lookup_2 in Hs.
    by apply list_elem_of_singleton in Hs.
Qed.

(** The interrupt of the player in the middle of a turn ends the program
    with status 0: the notice of interruption is the last thing printed,
    the farewell is not. *)
Theorem principal_interrumpido_en_turno w0 v w resto :
  en_curso w0 v w →
  teclado w = CtrlC :: resto →
  principal w0
  = (Raise (SystemExit 0),
     tras_leer w [PideIntento (intentos_hechos v + 1) (max_intentos v);
                  Interrumpido]).
Proof.
  intros [Halc Hlt] Hw. unfold principal.
  pose proof (alcanzable_inv _ _ _ Halc) as (_ & _ & _ & _ & _ & _ & ->).
  rewrite bind_eq, bucle_eq, bool_decide_eq_true_2 by done.
  rewrite bind_eq, (turno_ctrl_c _ _ _ Hw). by correr.
Qed.

(** The end of the input in the middle of a turn is not handled: the
    [EOFError] of [input] leaves the program, after the prompt, with no
    report and no farewell. *)
Theorem principal_fin_de_entrada w0 v w :
  en_curso w0 v w →
  teclado w = [] →
  principal w0
  = (Raise EOFError,
     tras_leer w [PideIntento (intentos_hechos v + 1) (max_intentos v)]).
Proof.
  intros [Halc Hlt] Hw. unfold principal.
  pose proof (alcanzable_inv _ _ _ Halc) as (_ & _ & _ & _ & _ & _ & ->).
  rewrite bind_eq, bucle_eq, bool_decide_eq_true_2 by done.
  by rewrite bind_eq, (turno_fin _ _ Hw).
Qed.

(** How the loop can end without raising. *)
Lemma bucle_fin w0 n v w sal vf wf :
  length (teclado w) = n →
  alcanzable w0 v w →
  bucle v w = (Ok (sal, vf), wf) →
  (sal = PorCondicion ∧ alcanzable w0 vf wf ∧
   ¬ (intentos_hechos vf < max_intentos vf)%Z) ∨
  (sal = PorBreak ∧
   ∃ v1 w1, en_curso w0 v1 w1 ∧ turno v1 w1 = (Ok (Break, vf), wf)).
Proof.
  revert v w. induction n as [|n IH]; intros v w Hn Halc; rewrite bucle_eq;
    case_bool_decide as Hlt; try (intros [= <- <- <-]; by left).
  - apply nil_length_inv in Hn. by rewrite bind_eq, (turno_fin _ _ Hn).
  - rewrite bind_eq.
    destruct (turno v w) as [[[c v']|e] w'] eqn:Hturno; [|done].
    assert (length (teclado w') = n) as Hn'.
    { rewrite (turno_teclado _ _ _ _ Hturno).
      destruct (teclado w); simplify_eq/=. done. }
    destruct c.
    + intros Hb. eapply (IH v' w' Hn'); [|done]. by eapply alc_turno.
    + intros [= <- <- <-]. right. split; [done|]. by exists v, w.
    + intros Hb. eapply (IH v' w' Hn'); [|done]. by eapply alc_turno.
Qed.

(** When [jugar_wordle_es] returns, the farewell is the last thing
    printed, between one attempt and the budget were counted, and either
    the loop was left by its [break], and then the last evaluation of the
    history is all green and the ones before are not, or it was left by
    its test, and then the budget is spent and no evaluation of the
    history is all green. *)
Theorem jugar_wordle_es_desenlace w0 sal vf wf :
  jugar_wordle_es w0 = (Ok (sal, vf), wf) →
  (∃ ms, pantalla wf = ms ++ [Gracias]) ∧
  intentos_hechos vf = Z.of_nat (length (intentos_info vf)) ∧
  (1 ≤ intentos_hechos vf ≤ max_intentos vf)%Z ∧
  match sal with
  | PorBreak =>
      ∃ antes ev,
        intentos_info vf = antes ++ [ev] ∧
        todo_verde ev = true ∧
        Forall (λ ev, todo_verde ev = false) antes
  | PorCondicion =>
      intentos_hechos vf = max_intentos vf ∧
      Forall (λ ev, todo_verde ev = false) (intentos_info vf)
  end.
Proof.
  unfold jugar_wordle_es. rewrite bind_eq.
  destruct (preparar w0) as [[v0|] w1] eqn:Hprep; [|done].
  rewrite bind_eq.
  destruct (bucle v0 w1) as [[[sal' vf']|] w2] eqn:Hbucle; [|done].
  correr. intros [= -> -> <-].
  split; [by eexists|].
  pose proof (alc_inicio w0 v0 w1 Hprep) as Halc.
  destruct (bucle_fin w0 _ v0 w1 sal vf w2 eq_refl Halc Hbucle)
    as [(-> & Hfin & Hge)|(-> & v1 & w3 & [Halc1 Hlt] & Hturno)].
  - pose proof (alcanzable_inv _ _ _ Hfin) as (_ & Hm & _ & Hh & Hle & Hinfo & _).
    split_and!; try done; lia.
  - pose proof (alcanzable_inv _ _ _ Halc1) as (_ & Hm & _ & Hh & Hle & Hinfo & _).
    destruct (teclado w3) as [|[raw|] resto] eqn:Hw.
    + by rewrite (turno_fin _ _ Hw) in Hturno.
    + rewrite (turno_linea _ _ _ _ Hw) in Hturno. simpl in Hturno.
      destruct (validar_intento _ _); [|done].
      destruct (evaluar_intento _ _) as [ev|]; [|done].
      destruct (todo_verde ev) eqn:Hev; [|by destruct (bool_decide _)].
      simplify_eq. simpl. rewrite length_app. simpl.
      split_and!; try lia. by exists (intentos_info v1), ev.
    + by rewrite (turno_ctrl_c _ _ _ Hw) in Hturno.
Qed.

End sesion_completa.

Section ejemplos_de_sesion_completa.
Import Ejemplo.
#[local] Existing Instance Latin1.lib.

Lemma turno_en_curso_witness :
  let w0 := mundo_inicial ["5"; "2"; " Alloy "; "llama"]%string in
  let v := locales_iniciales 2 in
  let w := mundo_preparado 2 [" Alloy "; "llama"]%string in
  ∃ c v' w',
    turno v w = (Ok (c, v'), w') ∧
    teclado w' = [Linea (cps "llama")] ∧
    (c = Continue ↔ validar_intento (normalizado (cps " Alloy ")) (longitud v) = false) ∧
    (c = Break ↔ normalizado (cps " Alloy ") = secreto v) ∧
    (c = Continue → v' = v) ∧
    (c ≠ Continue →
     intentos_hechos v' = (intentos_hechos v + 1)%Z ∧
     length (intentos_info v') = S (length (intentos_info v))).
Proof.
  intros w0 v w.
  apply (turno_en_curso w0 v w (cps " Alloy ") [Linea (cps "llama")]).
  - split; [apply alc_inicio; vm_compute; reflexivity | reflexivity].
  - reflexivity.
Defined.

Lemma sesion_invariantes_witness :
  let v := locales_iniciales 2 in
  (5 ≤ longitud v ≤ 10)%Z ∧ (1 ≤ max_intentos v ≤ 20)%Z ∧
  Z.of_nat (length (secreto v)) = longitud v ∧
  intentos_hechos v = Z.of_nat (length (intentos_info v)) ∧
  (0 ≤ intentos_hechos v ≤ max_intentos v)%Z ∧
  Forall (λ ev, Z.of_nat (length ev) = longitud v ∧ todo_verde ev = false)
    (intentos_info v).
Proof.
  intros v.
  apply (sesion_invariantes (mundo_inicial ["5"; "2"; "perro"]%string) v
           (mundo_preparado 2 ["perro"]%string)).
  apply alc_inicio. vm_compute. reflexivity.
Defined.

Lemma elegir_secreto_de_la_reserva_witness :
  ∃ s,
    elegir_secreto 5 6 (mundo_inicial [])
    = (Ok (Locales 5 6 s [] 0),
       tras_imprimir (mundo_inicial []) [Limpiar; Comienza 6 5]) ∧
    [cps "llama"; cps "canon"; cps "perro"] !! (3 `mod` 3) = Some s ∧
    s ∈ [cps "llama"; cps "canon"; cps "perro"] ∧
    (∀ p, [cps "llama"; cps "canon"; cps "perro"] = [p] → s = p).
Proof.
  apply (elegir_secreto_de_la_reserva 5 6 (mundo_inicial []) datos
           [cps "llama"; cps "canon"; cps "perro"]).
  - reflexivity.
  - vm_compute. reflexivity.
  - done.
Defined.

Lemma principal_interrumpido_en_turno_witness :
  principal (Mundo [Linea (cps "5"); Linea (cps "2"); CtrlC] (Datos datos) 3 [])
  = (Raise (SystemExit 0),
     tras_leer (Mundo [CtrlC] (Datos datos) 3
                  [Limpiar; Bienvenida; PideLongitud; PideIntentos;
                   Obteniendo 5; Limpiar; Comienza 2 5])
       [PideIntento 1 2; Interrumpido]).
Proof.
  apply (principal_interrumpido_en_turno _ (locales_iniciales 2) _ []).
  - split; [apply alc_inicio; vm_compute; reflexivity | reflexivity].
  - reflexivity.
Defined.

Lemma principal_fin_de_entrada_witness :
  principal (mundo_inicial ["5"; "2"]%string)
  = (Raise EOFError, tras_leer (mundo_preparado 2 []) [PideIntento 1 2]).
Proof.
  apply (principal_fin_de_entrada _ (locales_iniciales 2) (mundo_preparado 2 [])).
  - split; [apply alc_inicio; vm_compute; reflexivity | reflexivity].
  - reflexivity.
Defined.

Lemma jugar_wordle_es_desenlace_witness :
  ∃ vf wf,
    jugar_wordle_es (mundo_inicial ["5"; "2"; "perro"; "llama"]%string)
    = (Ok (PorBreak, vf), wf) ∧
    (∃ ms, pantalla wf = ms ++ [Gracias]) ∧
    intentos_hechos vf = Z.of_nat (length (intentos_info vf)) ∧
    (1 ≤ intentos_hechos vf ≤ max_intentos vf)%Z ∧
    ∃ antes ev,
      intentos_info vf = antes ++ [ev] ∧
      todo_verde ev = true ∧
      Forall (λ ev, todo_verde ev = false) antes.
Proof.
  do 2 eexists. split; [vm_compute; reflexivity|].
  eapply (jugar_wordle_es_desenlace
            (mundo_inicial ["5"; "2"; "perro"; "llama"]%string) PorBreak).
  vm_compute. reflexivity.
Defined.

End ejemplos_de_sesion_completa.

(** ** The normalizer on Latin-1 text, character by character *)

Section normalizador_extra.
#[local] Existing Instance Latin1.lib.

Lemma latin1_todos (P : N → bool) :
  forallb P (N.of_nat <$> seq 0 256) = true →
  ∀ c, (c < 256)%N → P c = true.
Proof.
  intros Hall c Hc. rewrite forallb_forall in Hall. apply Hall.
  rewrite <- (N2Nat.id c). apply in_map, in_seq. lia.
Qed.

Lemma quitar_acentos_bind (s : pystr) :
  quitar_acentos s = s ≫= λ c, quitar_acentos [c].
Proof.
  unfold quitar_acentos. simpl.
  induction s as [|c s IH]; [done|].
  rewrite !bind_cons. change ([] ≫= Latin1.descomposicion) with (@nil N).
  rewrite app_nil_r, filter_app, fmap_app. by rewrite IH.
Qed.

Lemma bind_ext_latin1 (f g : N → pystr) (s : pystr) :
  es_latin1 s → (∀ c, (c < 256)%N → f c = g c) → s ≫= f = s ≫= g.
Proof.
  intros Hs Hfg. induction Hs as [|c s Hc _ IH]; [done|].
  by rewrite !bind_cons, IH, Hfg.
Qed.

Lemma bind_bind (f g : N → pystr) (s : pystr) :
  (s ≫= f) ≫= g = s ≫= λ c, f c ≫= g.
Proof.
  induction s as [|c s IH]; [done|]. by rewrite !bind_cons, bind_app, IH.
Qed.

(** On Latin-1 text the normalizer is idempotent: a normalized word is
    its own normalized form. *)
Theorem quitar_acentos_idempotente (s : pystr) :
  es_latin1 s → quitar_acentos (quitar_acentos s) = quitar_acentos s.
Proof.
  intros Hs.
  rewrite (quitar_acentos_bind (quitar_acentos s)), (quitar_acentos_bind s).
  rewrite bind_bind. apply bind_ext_latin1; [done|].
  intros c Hc. rewrite <- quitar_acentos_bind.
  pose proof (latin1_todos
    (λ c, bool_decide (quitar_acentos (quitar_acentos [c])
                       = quitar_acentos [c]))) as Hall.
  specialize (Hall ltac:(vm_compute; reflexivity) c Hc).
  by apply bool_decide_eq_true in Hall.
Qed.

Lemma quitar_acentos_idempotente_witness :
  quitar_acentos (quitar_acentos Ejemplo.CANON_ACENTUADO)
  = quitar_acentos Ejemplo.CANON_ACENTUADO.
Proof.
  apply (quitar_acentos_idempotente Ejemplo.CANON_ACENTUADO).
  repeat constructor.
Defined.

(** On Latin-1 text the lower case taken before the normalizer (line
    173) changes nothing: the normalizer gives the same word without
    it. *)
Theorem quitar_acentos_lower (s : pystr) :
  es_latin1 s → quitar_acentos (str_lower s) = quitar_acentos s.
Proof.
  intros Hs. rewrite (quitar_acentos_bind (str_lower s)), (quitar_acentos_bind s).
  simpl. rewrite list_fmap_bind. apply bind_ext_latin1; [done|].
  intros c Hc. simpl.
  pose proof (latin1_todos
    (λ c, bool_decide (quitar_acentos [Latin1.lower_char c]
                       = quitar_acentos [c]))) as Hall.
  specialize (Hall ltac:(vm_compute; reflexivity) c Hc).
  by apply bool_decide_eq_true in Hall.
Qed.

Lemma quitar_acentos_lower_witness :
  quitar_acentos (str_lower Ejemplo.CANON_ACENTUADO)
  = quitar_acentos Ejemplo.CANON_ACENTUADO.
Proof.
  apply (quitar_acentos_lower Ejemplo.CANON_ACENTUADO). repeat constructor.
Defined.

(** On Latin-1 text without the three vulgar fractions the normalized
    word has as many characters as the word: the length test after
    normalization then tests the length of the word itself. *)
Theorem quitar_acentos_longitud (s : pystr) :
  es_latin1 s →
  Forall (λ c, c ∉ [0xBC; 0xBD; 0xBE]%N) s →
  length (quitar_acentos s) = length s.
Proof.
  intros Hs Hfr. rewrite quitar_acentos_bind.
  induction Hs as [|c s Hc _ IH]; [done|].
  apply Forall_cons in Hfr as [Hfr1 Hfr].
  rewrite bind_cons, length_app, IH by done.
  pose proof (latin1_todos
    (λ c, bool_decide (c ∈ [0xBC; 0xBD; 0xBE]%N)
          || (length (quitar_acentos [c]) =? 1))) as Hall.
  specialize (Hall ltac:(vm_compute; reflexivity) c Hc). cbv beta in Hall.
  rewrite bool_decide_eq_false_2 in Hall by done.
  apply Nat.eqb_eq in Hall. rewrite Hall. done.
Qed.

Lemma quitar_acentos_longitud_witness :
  length (quitar_acentos Ejemplo.CANON_ACENTUADO)
  = length Ejemplo.CANON_ACENTUADO.
Proof.
  apply (quitar_acentos_longitud Ejemplo.CANON_ACENTUADO).
  - repeat constructor.
  - repeat constructor; by apply (bool_decide_unpack _).
Defined.

(** On Latin-1 text, a normalized word that is alphabetic holds only the
    letters a to z and the six letters sharp s, ae, eth, o with stroke,
    thorn and mu: no capital and no accented letter is left, and the
    letters of the range without decomposition are kept. *)
Theorem quitar_acentos_alfabeto (s : pystr) :
  es_latin1 s →
  str_isalpha (quitar_acentos s) = true →
  Forall (λ c, letra_normalizada c = true) (quitar_acentos s).
Proof.
  intros Hs Halpha. apply str_isalpha_Forall in Halpha as [_ Halpha].
  rewrite quitar_acentos_bind in Halpha |- *.
  induction Hs as [|c s Hc _ IH]; [done|].
  rewrite bind_cons in Halpha |- *.
  apply Forall_app in Halpha as [Hc1 Halpha].
  apply Forall_app. split; [|by apply IH].
  pose proof (latin1_todos
    (λ c, forallb (λ x, negb (char_isalpha x) || letra_normalizada x)
            (quitar_acentos [c]))) as Hall.
  specialize (Hall ltac:(vm_compute; reflexivity) c Hc). simpl in Hall.
  rewrite forallb_forall in Hall. rewrite Forall_forall in Hc1 |- *.
  intros x Hx. specialize (Hc1 x Hx). apply list_elem_of_In in Hx.
  specialize (Hall x Hx). simpl in Hc1. rewrite Hc1 in Hall. done.
Qed.

Lemma quitar_acentos_alfabeto_witness :
  Forall (λ c, letra_normalizada c = true)
    (quitar_acentos Ejemplo.CANON_ACENTUADO).
Proof.
  apply (quitar_acentos_alfabeto Ejemplo.CANON_ACENTUADO).
  - repeat constructor.
  - reflexivity.
Defined.

End normalizador_extra.

(** ** The normalizer against its specification *)

Section normalizador.
Import Ejemplo.
#[local] Existing Instance Latin1.lib.

Lemma normalize_spec_bind (s : pystr) :
  Latin1.normalize_spec s = s ≫= λ c, Latin1.normalize_spec [c].
Proof.
  unfold Latin1.normalize_spec.
  induction s as [|c s IH]; [done|].
  rewrite !bind_cons. change ([] ≫= Latin1.canonica) with (@nil N).
  rewrite app_nil_r, filter_app, fmap_app. by rewrite IH.
Qed.

(** The two readings on a character of the range: they agree when the
    character has no compatibility mapping; when it has one, the program
    gives the mapping without its marks, in lower case, and the first
    character already differs from the one the canonical reading
    keeps. *)
Lemma compatibilidad_caracter (c : N) :
  (c < 256)%N →
  match Latin1.compatibilidad c with
  | None => quitar_acentos [c] = Latin1.normalize_spec [c]
  | Some d =>
      quitar_acentos [c]
      = Latin1.lower_char <$> filter (λ x, Latin1.combining x = 0%Z) d ∧
      ∃ x l y, quitar_acentos [c] = x :: l ∧
               Latin1.normalize_spec [c] = [y] ∧ x ≠ y
  end.
Proof.
  intros Hc.
  pose proof (latin1_todos
    (λ c, match Latin1.compatibilidad c with
          | None => bool_decide (quitar_acentos [c] = Latin1.normalize_spec [c])
          | Some d =>
              bool_decide
                (quitar_acentos [c]
                 = Latin1.lower_char <$>
                     filter (λ x, Latin1.combining x = 0%Z) d)
              && match quitar_acentos [c], Latin1.normalize_spec [c] with
                 | x :: _, [y] => negb (x =? y)%N
                 | _, _ => false
                 end
          end)) as Hall.
  specialize (Hall ltac:(vm_compute; reflexivity) c Hc). cbv beta in Hall.
  destruct (Latin1.compatibilidad c) as [d|].
  - apply andb_true_iff in Hall as [Hd%bool_decide_eq_true Hne].
    split; [done|].
    destruct (quitar_acentos [c]) as [|x l]; [done|].
    destruct (Latin1.normalize_spec [c]) as [|y [|??]]; try done.
    exists x, l, y. split_and!; [done..|].
    apply negb_true_iff, N.eqb_neq in Hne. done.
  - by apply bool_decide_eq_true in Hall.
Qed.

(** Claim C9, as the specification has it, fails: the program asks for
    the compatibility decomposition (NFKD), which turns the feminine
    ordinal indicator into the letter a, where the canonical decomposition
    leaves it alone. *)
Lemma quitar_acentos_no_es_canonica :
  quitar_acentos [0xAA]%N = cps "a" ∧
  Latin1.normalize_spec [0xAA]%N = [0xAA]%N ∧
  quitar_acentos [0xAA]%N ≠ Latin1.normalize_spec [0xAA]%N.
Proof. split_and!; done. Qed.

(** Claim C9, as the program has it, on text of the Latin-1 range.  The
    normalizer decomposes by compatibility, drops the marks and puts the
    rest in lower case.  It gives what the canonical decomposition would
    give exactly on the text that holds no character with a
    compatibility mapping; a character with one is replaced by its
    mapping.  The normalized form of "CAÑÓN" is "canon". *)
Theorem quitar_acentos_latin1 :
  quitar_acentos CANON_ACENTUADO = cps "canon" ∧
  (∀ s, es_latin1 s →
        (quitar_acentos s = Latin1.normalize_spec s ↔
         Forall (λ c, Latin1.compatibilidad c = None) s)) ∧
  (∀ c d, (c < 256)%N → Latin1.compatibilidad c = Some d →
          quitar_acentos [c]
          = Latin1.lower_char <$> filter (λ x, Latin1.combining x = 0%Z) d).
Proof.
  split_and!.
  - vm_compute. reflexivity.
  - intros s Hs. rewrite quitar_acentos_bind, normalize_spec_bind.
    induction Hs as [|c s Hc _ IH]; [done|].
    rewrite !bind_cons, Forall_cons, <- IH.
    pose proof (compatibilidad_caracter c Hc) as Hchar.
    destruct (Latin1.compatibilidad c) as [d|].
    + destruct Hchar as (_ & x & l & y & -> & -> & Hxy).
      split; [|by intros [? _]]. simpl. intros [= ? _]. done.
    + rewrite Hchar. split.
      * intros Heq%app_inv_head. done.
      * intros [_ ->]. done.
  - intros c d Hc Hd.
    pose proof (compatibilidad_caracter c Hc) as Hchar.
    rewrite Hd in Hchar. by destruct Hchar.
Qed.

Lemma quitar_acentos_latin1_witness :
  quitar_acentos CANON_ACENTUADO = Latin1.normalize_spec CANON_ACENTUADO ∧
  quitar_acentos [0xBA]%N
  = Latin1.lower_char <$> filter (λ x, Latin1.combining x = 0%Z) (cps "o").
Proof.
  destruct quitar_acentos_latin1 as (_ & Hcanonica & Hcompat). split.
  - apply (Hcanonica CANON_ACENTUADO); repeat constructor.
  - apply Hcompat; [reflexivity|reflexivity].
Defined.

End normalizador.

(** ** The line of the player against the specification *)

Section linea_del_jugador.
Import Ejemplo.
#[local] Existing Instance Latin1.lib.

(** Claim C4, as the specification has it, fails: the normalized form of
    the line "llama " has six characters, one of them a blank, yet the
    program, which trims the line before it normalizes it, accepts the
    guess, counts the attempt and records its evaluation. *)
Lemma intento_con_espacios_aceptado :
  let w0 := mundo_inicial ["5"; "1"; "llama "]%string in
  let v := locales_iniciales 1 in
  let w := mundo_preparado 1 ["llama "]%string in
  en_curso w0 v w ∧
  teclado w = [Linea (cps "llama ")] ∧
  length (quitar_acentos (cps "llama ")) ≠ length (secreto v) ∧
  (∃ c, c ∈ quitar_acentos (cps "llama ") ∧ char_isalpha c = false) ∧
  ∃ v' w',
    turno v w = (Ok (Break, v'), w') ∧
    intentos_hechos v' = 1%Z ∧
    length (intentos_info v') = 1.
Proof.
  intros w0 v w. split_and!.
  - split; [apply alc_inicio; vm_compute; reflexivity | reflexivity].
  - reflexivity.
  - vm_compute. lia.
  - exists 32%N. split; [|reflexivity].
    apply list_elem_of_lookup. by exists 5.
  - do 2 eexists. split_and!; [vm_compute; reflexivity|reflexivity..].
Qed.

End linea_del_jugador.
